(** * foodmini-vit: data_setup.py and model_builder.py

    A shallow embedding of the two modules of the repository.

    - [download_data], [create_dataloaders] (src/data_setup.py) run in a
      state-and-exception monad over a model of the file system, the
      network and the zip decoder.
    - [create_model_baseline_vit] (src/model_builder.py) runs in the same
      monad over a model of the torch runtime (global generator, the
      pretrained-weights hub, devices).

    The functions of the repository are transcribed statement by statement.
    What they call (pathlib, os, requests, zipfile, torchvision, torch) is
    modelled by the definitions that precede them; each of those says which
    library behaviour it stands for. *)

From stdpp Require Import gmap strings list sorting.
From Stdlib.Strings Require Import Ascii Byte.

Open Scope string_scope.

(** ** Python exceptions and the monad of effectful code *)

Inductive exn : Type :=
  | FileNotFoundError
  | FileExistsError
  | IsADirectoryError
  | NotADirectoryError
  | PermissionError
  | ConnectionError
  | BadZipFile
  | ValueError
  | TypeError
  | RuntimeError
  | KeyboardInterrupt.

#[global] Instance exn_eq_dec : EqDecision exn.
Proof. solve_decision. Defined.

(** [except OSError] in pathlib and os catches these (requests' exceptions
    derive from IOError, which is OSError). *)
Definition is_OSError (e : exn) : bool :=
  match e with
  | FileNotFoundError | FileExistsError | IsADirectoryError
  | NotADirectoryError | PermissionError | ConnectionError => true
  | _ => false
  end.

(** A computation reads and updates a state and either returns a value or
    raises; the state reached when it raises is kept (nothing is undone). *)
Definition M (St A : Type) : Type := St → St * (exn + A).

#[global] Instance M_ret {St} : MRet (M St) := λ A a s, (s, inr a).
#[global] Instance M_bind {St} : MBind (M St) :=
  λ A B k m s, match m s with
               | (s', inr a) => k a s'
               | (s', inl e) => (s', inl e)
               end.

Definition raise {St A} (e : exn) : M St A := λ s, (s, inl e).
Definition gets {St A} (f : St → A) : M St A := λ s, (s, inr (f s)).
Definition modify {St} (f : St → St) : M St unit := λ s, (f s, inr tt).
Definition lift {St A} (f : St → exn + A) : M St A := λ s, (s, f s).

(** [try: m except E: h] where [E] is the class of exceptions [handles]
    accepts. *)
Definition try_except {St A} (m : M St A) (handles : exn → bool)
    (h : exn → M St A) : M St A :=
  λ s, match m s with
       | (s', inl e) => if handles e then h e s' else (s', inl e)
       | r => r
       end.

(** ** pathlib.PurePosixPath *)

Module Path.

(** A pure path: the root ("", "/" or "//") and the components. *)
Record t : Type := Mk { root : string; parts : list string }.

#[global] Instance eq_dec : EqDecision t.
Proof. solve_decision. Defined.

(** [s.split("/")] *)
Fixpoint split_slash (s : string) : list string :=
  match s with
  | "" => [""]
  | String c r =>
      if decide (c = "/"%char) then "" :: split_slash r
      else match split_slash r with
           | h :: tl => String c h :: tl
           | [] => [String c ""]
           end
  end.

Fixpoint leading_slashes (s : string) : nat :=
  match s with
  | String c r => if decide (c = "/"%char) then S (leading_slashes r) else 0
  | "" => 0
  end.

(** POSIX keeps exactly two leading slashes apart. *)
Definition root_of (s : string) : string :=
  match leading_slashes s with
  | 0 => ""
  | 2 => "//"
  | _ => "/"
  end.

Definition proper (c : string) : bool :=
  negb (bool_decide (c = "")) && negb (bool_decide (c = ".")).

(** [Path(s)]: empty and "." components are dropped, ".." is kept. *)
Definition of_string (s : string) : t :=
  {| root := root_of s; parts := List.filter proper (split_slash s) |}.

(** [p / s]: an absolute right operand replaces the left one. *)
Definition join (p : t) (s : string) : t :=
  let q := of_string s in
  if decide (root q = "") then {| root := root p; parts := parts p ++ parts q |}
  else q.

(** [p.name]: the final component, "" when there is none. *)
Definition name (p : t) : string := List.last (parts p) "".

(** [p.parent]: the root and the empty relative path are their own parent. *)
Definition parent (p : t) : t :=
  {| root := root p; parts := removelast (parts p) |}.

Fixpoint concat_sep (l : list string) : string :=
  match l with
  | [] => ""
  | [c] => c
  | c :: r => c +:+ "/" +:+ concat_sep r
  end.

(** [str(p)] *)
Definition to_string (p : t) : string :=
  match parts p with
  | [] => if decide (root p = "") then "." else root p
  | ps => root p +:+ concat_sep ps
  end.

End Path.

Abbreviation path := Path.t.
Infix "/:" := Path.join (at level 40, left associativity).


(** ** The file system, the network and the zip decoder *)

(** Python [bytes]: a string of 8-bit characters. *)
Abbreviation bytes := string.

Inductive node : Type :=
  | Dir
  | File (content : bytes).

(** A member of a zip archive: its name inside the archive (a name ending
    in "/" is a directory) and its decompressed content. *)
Record zentry : Type := { filename : string; data : bytes }.

(** One sample of an image-folder dataset: the file and its class index. *)
Record sample : Type := { sample_file : list string; target : nat }.

(** What the libraries compute and this development leaves abstract: the
    zip decoder (None: not a zip file), the expansion of a leading "~" in
    a directory name, and torchvision's scan of the class directories for
    image files (given the file system, the location of the root and the
    classes; it raises when a class has no image). *)
Class Runtime : Type := {
  zip_decode : bytes → option (list zentry);
  expanduser : string → string;
  make_dataset : gmap (list string) node → list string → list string → exn + list sample;
}.

(** The calls a function of the repository makes, in program order, with
    their arguments; a call that raises is followed by [CRaised] with the
    exception it raised. *)
Inductive call : Type :=
  | CPrint (line : string)
  | CIsDir (p : path)
  | CMkdir (p : path)
  | COpen (p : path)
  | CGet (url : string)
  | CWrite (p : path) (body : bytes)
  | CZipFile (p : path)
  | CExtractAll (p : path)
  | CRemove (p : path)
  | CImageFolder (root : string)
  | CDataLoader (batch_size : Z) (shuffle : bool) (num_workers : option Z) (pin_memory : bool)
  | CRaised (e : exn).

(** The state of the process and its surroundings. [fs] maps a resolved
    location (the components from the root directory, without "." and "..")
    to what is there; the root directory itself always exists. [net] is
    what an HTTP GET of a URL gives, [cpus] what os.cpu_count() gives
    (None when the count cannot be determined). [faults] lets the surroundings make
    any system call fail: each system call takes the head, and raises it
    when it is an exception (a permission error, a full disk, an
    interrupt). Symbolic links are not modelled. *)
Record state : Type := State {
  fs : gmap (list string) node;
  cwd : list string;
  net : string → exn + bytes;
  cpus : option Z;
  faults : list (option exn);
  calls : list call;
}.

Definition set_fs (f : gmap (list string) node → gmap (list string) node) (s : state) : state :=
  {| fs := f (fs s); cwd := cwd s; net := net s; cpus := cpus s; faults := faults s; calls := calls s |}.

Definition set_faults (l : list (option exn)) (s : state) : state :=
  {| fs := fs s; cwd := cwd s; net := net s; cpus := cpus s; faults := l; calls := calls s |}.

Definition log (c : call) (s : state) : state :=
  {| fs := fs s; cwd := cwd s; net := net s; cpus := cpus s; faults := faults s; calls := calls s ++ [c] |}.

Definition is_dir_at (m : gmap (list string) node) (k : list string) : bool :=
  match k, m !! k with
  | [], _ => true
  | _, Some Dir => true
  | _, _ => false
  end.

Definition exists_at (m : gmap (list string) node) (k : list string) : bool :=
  match k, m !! k with
  | [], _ => true
  | _, Some _ => true
  | _, _ => false
  end.

(** Path resolution by the kernel: every component is looked up in the
    directory reached so far, ".." goes to the parent (the root is its own
    parent). What is at the final location is not examined. *)
Fixpoint walk (m : gmap (list string) node) (cur : list string) (ps : list string)
    : exn + list string :=
  match ps with
  | [] => inr cur
  | c :: r =>
      if is_dir_at m cur then
        walk m (if decide (c = "..") then removelast cur else cur ++ [c]) r
      else if exists_at m cur then inl NotADirectoryError
      else inl FileNotFoundError
  end.

(** A relative path starts at the working directory, which has to be
    there. *)
Definition resolve (s : state) (p : path) : exn + list string :=
  let start := if decide (Path.root p = "") then cwd s else [] in
  if is_dir_at (fs s) start then walk (fs s) start (Path.parts p)
  else if exists_at (fs s) start then inl NotADirectoryError
  else inl FileNotFoundError.

(** Every system call may fail for a reason outside the model. *)
Definition syscall : M state unit :=
  λ s, match faults s with
       | Some e :: r => (set_faults r s, inl e)
       | None :: r => (set_faults r s, inr tt)
       | [] => (s, inr tt)
       end.



(** [os.mkdir(p)] *)
Definition os_mkdir (p : path) : M state unit :=
  syscall;;
  k ← lift (λ s, resolve s p);
  ex ← gets (λ s, exists_at (fs s) k);
  if ex : bool then raise FileExistsError else modify (set_fs (insert k Dir)).

(** Whether [p] is a directory, whether anything is at [p], and the content
    of the file at [p]: false or None when [p] cannot be resolved. *)
Definition isdir (s : state) (p : path) : bool :=
  match resolve s p with
  | inr k => is_dir_at (fs s) k
  | inl _ => false
  end.

Definition exists_ (s : state) (p : path) : bool :=
  match resolve s p with
  | inr k => exists_at (fs s) k
  | inl _ => false
  end.

Definition read_file (s : state) (p : path) : option bytes :=
  match resolve s p with
  | inr k => match fs s !! k with
             | Some (File body) => Some body
             | _ => None
             end
  | inl _ => None
  end.

(** The exceptions [Path.is_dir()] answers False to: pathlib ignores an
    OSError whose errno is ENOENT, ENOTDIR, EBADF or ELOOP, and a
    ValueError; every other exception of the stat is raised again. *)
Definition is_dir_ignores (e : exn) : bool :=
  match e with
  | FileNotFoundError | NotADirectoryError | ValueError => true
  | _ => false
  end.

(** [p.is_dir()] of pathlib: one stat, a system call, which may fail for a
    reason outside the model (a denied search permission on a directory of
    the path, an I/O error). *)
Definition stat_is_dir (p : path) : M state bool :=
  try_except (syscall;; gets (λ s, isdir s p)) is_dir_ignores (λ _, mret false).

(** [os.path.isdir(p)] and [os.path.exists(p)], as zipfile and os.makedirs
    use them: they catch every OSError of their stat and never raise. They
    are taken to be answered: no fault is spent on them, the faults of an
    extraction are those of the calls that write. *)
Definition os_path_isdir (p : path) : M state bool := gets (λ s, isdir s p).

Definition path_exists (p : path) : M state bool := gets (λ s, exists_ s p).

(** [open(p, "wb")]: creates or truncates the file; the handle is the
    location of the file. *)
Definition sys_open_wb (p : path) : M state (list string) :=
  syscall;;
  k ← lift (λ s, resolve s p);
  d ← gets (λ s, is_dir_at (fs s) k);
  if d : bool then raise IsADirectoryError
  else modify (set_fs (insert k (File "")));; mret k.

(** [f.write(body)] on a handle: a file unlinked in between is not
    brought back. *)
Definition sys_write (k : list string) (body : bytes) : M state unit :=
  syscall;;
  modify (set_fs (λ m, match m !! k with
                       | Some (File _) => <[k := File body]> m
                       | _ => m
                       end)).

(** [os.remove(p)] *)
Definition sys_remove (p : path) : M state unit :=
  syscall;;
  k ← lift (λ s, resolve s p);
  d ← gets (λ s, is_dir_at (fs s) k);
  if d : bool then raise IsADirectoryError
  else ex ← gets (λ s, exists_at (fs s) k);
       if ex : bool then modify (set_fs (delete k)) else raise FileNotFoundError.

(** [self.mkdir(parents=False, exist_ok=True)] of pathlib. *)
Definition mkdir_exist_ok (self : path) : M state unit :=
  try_except (os_mkdir self) is_OSError
    (λ e, if decide (e = FileNotFoundError) then raise e
          else d ← stat_is_dir self; if d : bool then mret tt else raise e).

(** [self.mkdir(parents=True, exist_ok=True)] of pathlib, by recursion on
    the components of [self] from the last one: os.mkdir is tried first,
    the parents are made when it reports a missing one. *)
Fixpoint mkdir_parents (root : string) (rparts : list string) : M state unit :=
  let self := Path.Mk root (rev rparts) in
  try_except (os_mkdir self) is_OSError
    (λ e, if decide (e = FileNotFoundError) then
            match rparts with
            | [] => raise e
            | _ :: rparent => mkdir_parents root rparent;; mkdir_exist_ok self
            end
          else d ← stat_is_dir self; if d : bool then mret tt else raise e).

(** [os.makedirs(name)] (exist_ok=False), by recursion on the components
    from the last one: the missing ancestors first, then [name]. *)
Fixpoint makedirs (root : string) (rparts : list string) : M state unit :=
  let name := Path.Mk root (rev rparts) in
  match rparts with
  | [] => os_mkdir name
  | _ :: rhead =>
      let head := Path.Mk root (rev rhead) in
      ex ← path_exists head;
      (if negb (bool_decide (root = "") && bool_decide (rhead = [])) && negb ex
       then try_except (makedirs root rhead) (λ e, bool_decide (e = FileExistsError)) (λ _, mret tt)
       else mret tt);;
      os_mkdir name
  end.

(** *** zipfile *)

Fixpoint ends_with_slash (s : string) : bool :=
  match s with
  | "" => false
  | String c "" => bool_decide (c = "/"%char)
  | String _ r => ends_with_slash r
  end.

(** [ZipInfo.is_dir()] *)
Definition zentry_is_dir (e : zentry) : bool := ends_with_slash (filename e).

(** The components of a member's name that zipfile keeps: "", "." and ".."
    are removed, so a member never leaves the target directory. *)
Definition arcname (e : zentry) : list string :=
  List.filter (λ c, negb (bool_decide (c = "")) && negb (bool_decide (c = "."))
                    && negb (bool_decide (c = "..")))
              (Path.split_slash (filename e)).

(** Where a member goes: [os.path.join(targetpath, arcname)]. *)
Definition member_path (targetpath : path) (e : zentry) : path :=
  Path.Mk (Path.root targetpath) (Path.parts targetpath ++ arcname e).

(** [ZipFile._extract_member(member, targetpath)]: the missing upper
    directories are made, then the directory or the file itself. zipfile
    normalises the joined path textually; here the kernel resolves it,
    which is the same location whenever [targetpath] is a directory. *)
Definition extract_member (targetpath : path) (e : zentry) : M state unit :=
  let tp := member_path targetpath e in
  let upperdirs := Path.parent tp in
  ex ← path_exists upperdirs;
  (if negb (bool_decide (Path.root upperdirs = "") && bool_decide (Path.parts upperdirs = []))
      && negb ex
   then makedirs (Path.root upperdirs) (rev (Path.parts upperdirs))
   else mret tt);;
  if zentry_is_dir e then
    d ← os_path_isdir tp; if d : bool then mret tt else os_mkdir tp
  else
    f ← sys_open_wb tp; sys_write f (data e).

Fixpoint extract_members (targetpath : path) (members : list zentry) : M state unit :=
  match members with
  | [] => mret tt
  | e :: r => extract_member targetpath e;; extract_members targetpath r
  end.

(** ** The calls of data_setup.py *)

(** A call is recorded when it is made, and its exception when it raises;
    the exception goes on to the caller. *)
Definition called {A} (c : call) (body : M state A) : M state A :=
  modify (log c);;
  try_except body (λ _, true) (λ e, modify (log (CRaised e));; raise e).

(** What a call leaves in the record after its own entry. *)
Definition outcome {A} (r : exn + A) : list call :=
  match r with
  | inl e => [CRaised e]
  | inr _ => []
  end.

Definition print (line : string) : M state unit := modify (log (CPrint line)).

(** [p.is_dir()] as a call of the repository's code. *)
Definition is_dir (p : path) : M state bool := called (CIsDir p) (stat_is_dir p).

(** [p.mkdir(parents=True, exist_ok=True)] *)
Definition mkdir (p : path) : M state unit :=
  called (CMkdir p) (mkdir_parents (Path.root p) (rev (Path.parts p))).

(** [open(p, "wb")] *)
Definition open_wb (p : path) : M state (path * list string) :=
  called (COpen p) (f ← sys_open_wb p; mret (p, f)).

(** [requests.get(url)]: the response (its [content]), or the exception. *)
Definition requests_get (url : string) : M state bytes :=
  called (CGet url) (syscall;; lift (λ s, net s url)).

(** [f.write(body)] *)
Definition write (f : path * list string) (body : bytes) : M state unit :=
  called (CWrite f.1 body) (sys_write f.2 body).

(** [zipfile.ZipFile(p, "r")]: the file is read and its directory decoded. *)
Definition ZipFile `{Runtime} (p : path) : M state (list zentry) :=
  called (CZipFile p)
    (syscall;;
     k ← lift (λ s, resolve s p);
     lift (λ s, if is_dir_at (fs s) k then inl IsADirectoryError
                else match fs s !! k with
                     | Some (File body) =>
                         match zip_decode body with
                         | Some members => inr members
                         | None => inl BadZipFile
                         end
                     | _ => inl FileNotFoundError
                     end)).

(** [zip_ref.extractall(p)] *)
Definition extractall (zip_ref : list zentry) (p : path) : M state unit :=
  called (CExtractAll p) (extract_members p zip_ref).

(** [os.remove(p)] *)
Definition os_remove (p : path) : M state unit :=
  called (CRemove p) (sys_remove p).

(** [download_data] of src/data_setup.py. Leaving a [with] block closes
    the handle, which changes nothing here: a write is on disk at once. *)
Definition download_data `{Runtime} (source destination : string) (remove_source : bool)
    : M state path :=
  let data_path := Path.of_string "data/" in
  let image_path := data_path /: destination in
  d ← is_dir image_path;
  (if d : bool then
     print ("[INFO] " +:+ Path.to_string image_path +:+ " directory exists, skipping download.")
   else
     print ("[INFO] Did not find " +:+ Path.to_string image_path +:+ " directory, creating one...");;
     mkdir image_path;;
     let target_file := Path.name (Path.of_string source) in
     (f ← open_wb (data_path /: target_file);
      request ← requests_get source;
      print ("[INFO] Downloading " +:+ target_file +:+ " from " +:+ source +:+ "...");;
      write f request);;
     (zip_ref ← ZipFile (data_path /: target_file);
      print ("[INFO] Unzipping " +:+ target_file +:+ " data...");;
      extractall zip_ref image_path);;
     (if remove_source then os_remove (data_path /: target_file) else mret tt));;
  mret image_path.

(** *** torchvision.datasets.ImageFolder and torch.utils.data.DataLoader *)

(** The name of [k'] inside the directory at [k], when it is an immediate
    entry of it. *)
Definition entry_name (k k' : list string) : option string :=
  match drop (length k) k' with
  | [n] => if decide (take (length k) k' = k) then Some n else None
  | _ => None
  end.

(** [entry.name for entry in os.scandir(directory) if entry.is_dir()], in
    the order the file system lists them. *)
Definition scandir_dirs (m : gmap (list string) node) (k : list string) : list string :=
  omap (λ kv, match kv.2 with
              | Dir => entry_name k kv.1
              | File _ => None
              end) (map_to_list m).

(** The order of Python's [sorted] on strings. *)
Definition str_le (a b : string) : Prop := String.leb a b = true.

#[global] Instance str_le_dec : RelDecision str_le.
Proof. intros a b. unfold str_le. apply _. Defined.

(** [DatasetFolder.find_classes(directory)] *)
Definition find_classes (directory : string) : M state (list string) :=
  (if decide (directory = "") then raise FileNotFoundError else mret tt);;
  k ← lift (λ s, resolve s (Path.of_string directory));
  lift (λ s, if is_dir_at (fs s) k then
               match merge_sort str_le (scandir_dirs (fs s) k) with
               | [] => inl FileNotFoundError
               | classes => inr classes
               end
             else if exists_at (fs s) k then inl NotADirectoryError
             else inl FileNotFoundError).

Record ImageFolder (T : Type) : Type := {
  root : string;
  transform : T;
  classes : list string;
  samples : list sample;
}.
Arguments root {T}.
Arguments transform {T}.
Arguments classes {T}.
Arguments samples {T}.

(** [datasets.ImageFolder(root=root, transform=transform)] *)
Definition ImageFolder_init `{Runtime} {T} (root : string) (transform : T)
    : M state (ImageFolder T) :=
  called (CImageFolder root)
    (let root := expanduser root in
     classes ← find_classes root;
     samples ← lift (λ s, match resolve s (Path.of_string root) with
                          | inr k => make_dataset (fs s) k classes
                          | inl e => inl e
                          end);
     mret {| root := root; transform := transform; classes := classes;
             samples := samples |}).

Record DataLoader (T : Type) : Type := {
  dataset : ImageFolder T;
  batch_size : Z;
  shuffle : bool;
  num_workers : Z;
  pin_memory : bool;
}.
Arguments dataset {T}.
Arguments batch_size {T}.
Arguments shuffle {T}.
Arguments num_workers {T}.
Arguments pin_memory {T}.

(** [DataLoader(dataset, batch_size=, shuffle=, num_workers=, pin_memory=)]
    with the checks of its constructor and of the samplers it builds
    (RandomSampler wants a sample, BatchSampler a positive batch size). *)
Definition DataLoader_init {T} (dataset : ImageFolder T) (batch_size : Z) (shuffle : bool)
    (num_workers : option Z) (pin_memory : bool) : M state (DataLoader T) :=
  called (CDataLoader batch_size shuffle num_workers pin_memory)
    match num_workers with
    | None => raise TypeError
    | Some n =>
        if bool_decide (n < 0)%Z then raise ValueError
        else if shuffle && bool_decide (samples dataset = []) then raise ValueError
        else if bool_decide (batch_size ≤ 0)%Z then raise ValueError
        else mret {| dataset := dataset; batch_size := batch_size; shuffle := shuffle;
                     num_workers := n; pin_memory := pin_memory |}
    end.

(** The module object of data_setup: its global, bound when the module is
    loaded. The default of [num_workers] is bound at the same time. *)
Record data_setup : Type := { NUM_WORKERS : option Z }.

(** [import data_setup]: line 12, [NUM_WORKERS = os.cpu_count()]. *)
Definition import_data_setup : M state data_setup :=
  n ← gets cpus; mret {| NUM_WORKERS := n |}.

(** [create_dataloaders] of src/data_setup.py; [num_workers] is None when
    the caller leaves the argument out. *)
Definition create_dataloaders `{Runtime} {T} (module : data_setup)
    (train_dir test_dir : string) (train_transform test_transform : T)
    (batch_size : Z) (num_workers : option (option Z))
    : M state (DataLoader T * DataLoader T * list string) :=
  let num_workers := default (NUM_WORKERS module) num_workers in
  train_data ← ImageFolder_init train_dir train_transform;
  test_data ← ImageFolder_init test_dir test_transform;
  let class_names := classes train_data in
  train_dataloader ← DataLoader_init train_data batch_size true num_workers true;
  test_dataloader ← DataLoader_init test_data batch_size false num_workers true;
  mret (train_dataloader, test_dataloader, class_names).

(** ** The torch runtime *)

(** Tensors and generators are kept abstract: [manual_seed] is the state a
    generator is put in by a seed, [random_int64] draws one integer,
    [randperm seed n] is the permutation of [0..n-1] a fresh generator
    seeded with [seed] gives, [reset_parameters g in out] the weight and
    bias nn.Linear draws from [g] for these sizes, [init_vit g] the state
    of [g] after the layers of a newly constructed ViT-B/16 were
    initialised from it. *)
Class Torch : Type := {
  tensor : Type;
  generator : Type;
  manual_seed : Z → generator;
  random_int64 : generator → Z * generator;
  randperm : Z → nat → list nat;
  reset_parameters : generator → Z → Z → tensor * tensor * generator;
  init_vit : generator → generator;
}.

(** [batch_size] consecutive elements at a time, the last batch shorter
    (drop_last is False); [cur] holds the batch being filled, [room] how
    many elements it still takes. *)
Fixpoint batches_aux {A} (size room : nat) (cur : list A) (l : list A) : list (list A) :=
  match l with
  | [] => match cur with [] => [] | _ => [rev cur] end
  | x :: r =>
      match room with
      | 0 | 1 => rev (x :: cur) :: batches_aux size size [] r
      | S room' => batches_aux size room' (x :: cur) r
      end
  end.

Definition batches {A} (size : nat) (l : list A) : list (list A) :=
  batches_aux size size [] l.

(** One traversal, [for batch in dataloader]: the samples of every batch,
    in the order they are yielded, and the global generator afterwards.
    The iterator draws the base seed of its workers; a shuffling loader
    then draws the seed of the permutation of this traversal. *)
Definition traverse `{Torch} {T} (dl : DataLoader T) (g : generator)
    : list (list sample) * generator :=
  let '(_, g) := random_int64 g in
  let n := length (samples (dataset dl)) in
  let '(order, g) :=
    if shuffle dl then let '(seed, g) := random_int64 g in (randperm seed n, g)
    else (seq 0 n, g) in
  (batches (Z.to_nat (batch_size dl)) (omap (λ i, samples (dataset dl) !! i) order), g).

(** *** torch.nn *)

Inductive device : Type :=
  | cpu
  | cuda (index : nat)
  | mps.

Record Param `{Torch} : Type := {
  shape : list Z;
  value : tensor;
  requires_grad : bool;
  on : device;
}.

#[local] Set Warnings "-register-all".

(** An nn.Module: its own parameters and its named submodules. *)
Inductive nn_Module `{Torch} : Type :=
  | Module_ (own : list (string * Param)) (children : list (string * nn_Module)).

Definition own `{Torch} (m : nn_Module) : list (string * Param) :=
  match m with Module_ o _ => o end.

Definition children `{Torch} (m : nn_Module) : list (string * nn_Module) :=
  match m with Module_ _ c => c end.

(** [m.parameters()] *)
Fixpoint parameters `{Torch} (m : nn_Module) : list Param :=
  match m with
  | Module_ o c => map snd o ++ flat_map (λ nc, parameters nc.2) c
  end.

(** A change made to every parameter of a module. *)
Fixpoint map_parameters `{Torch} (f : Param → Param) (m : nn_Module) : nn_Module :=
  match m with
  | Module_ o c => Module_ (map (λ np, (np.1, f np.2)) o)
                           (map (λ nc, (nc.1, map_parameters f nc.2)) c)
  end.

Definition set_requires_grad `{Torch} (b : bool) (p : Param) : Param :=
  {| shape := shape p; value := value p; requires_grad := b; on := on p |}.

Definition set_device `{Torch} (d : device) (p : Param) : Param :=
  {| shape := shape p; value := value p; requires_grad := requires_grad p; on := d |}.

(** [m.name = new] for a module [new]: the submodule of that name is
    replaced where it stands, or added at the end. *)
Fixpoint set_child `{Torch} (name : string) (new : nn_Module)
    (c : list (string * nn_Module)) : list (string * nn_Module) :=
  match c with
  | [] => [(name, new)]
  | (n, m) :: r => if decide (n = name) then (name, new) :: r
                   else (n, m) :: set_child name new r
  end.

Definition setattr `{Torch} (m : nn_Module) (name : string) (new : nn_Module) : nn_Module :=
  Module_ (own m) (set_child name new (children m)).

Fixpoint get_child `{Torch} (name : string) (c : list (string * nn_Module))
    : option nn_Module :=
  match c with
  | [] => None
  | (n, m) :: r => if decide (n = name) then Some m else get_child name r
  end.

(** The calls model_builder.py makes, in program order; a call that raises
    is followed by [TRaised] with the exception it raised. *)
Inductive tcall : Type :=
  | TVit
  | TTo (d : option device)
  | TSetSeeds
  | TLinear (in_features out_features : Z)
  | TRaised (e : exn).

(** The torch side of the process: the global generator, what loading the
    pretrained ViT-B/16 gives (the model, or the error of the download),
    and the devices that can be used. *)
Record torch `{Torch} : Type := {
  rng : generator;
  hub : exn + nn_Module;
  available : device → bool;
  tcalls : list tcall;
}.

Definition tlog `{Torch} (c : tcall) (s : torch) : torch :=
  {| rng := rng s; hub := hub s; available := available s; tcalls := tcalls s ++ [c] |}.

Definition set_rng `{Torch} (g : generator) (s : torch) : torch :=
  {| rng := g; hub := hub s; available := available s; tcalls := tcalls s |}.

(** As [called], for the torch side. *)
Definition tcalled `{Torch} {A} (c : tcall) (body : M torch A) : M torch A :=
  modify (tlog c);;
  try_except body (λ _, true) (λ e, modify (tlog (TRaised e));; raise e).

(** [torchvision.models.vit_b_16(weights=ViT_B_16_Weights.DEFAULT)]: the
    network is constructed first, its layers initialised from the global
    generator; then the pretrained weights are fetched and loaded over
    them. *)
Definition vit_b_16 `{Torch} : M torch nn_Module :=
  tcalled TVit (modify (λ s, set_rng (init_vit (rng s)) s);; lift hub).

(** [m.to(device)]: None moves nothing; a device that cannot be used
    raises. *)
Definition to `{Torch} (d : option device) (m : nn_Module) : M torch nn_Module :=
  tcalled (TTo d)
    match d with
    | None => mret m
    | Some d =>
        ok ← gets (λ s, available s d);
        if ok : bool then mret (map_parameters (set_device d) m) else raise RuntimeError
    end.

(** A size a tensor can have: torch takes a Python int that fits in 64
    bits, signed. *)
Definition int64 (n : Z) : bool :=
  bool_decide (- 2 ^ 63 ≤ n)%Z && bool_decide (n < 2 ^ 63)%Z.

(** [nn.Linear(in_features, out_features)]: created on the cpu, trainable,
    initialised from the global generator. A size that does not fit in 64
    bits raises TypeError, a negative one RuntimeError. *)
Definition nn_Linear `{Torch} (in_features out_features : Z) : M torch nn_Module :=
  tcalled (TLinear in_features out_features)
    (if negb (int64 in_features && int64 out_features) then raise TypeError
     else if bool_decide (in_features < 0)%Z || bool_decide (out_features < 0)%Z
     then raise RuntimeError
     else
       g ← gets rng;
       let '(weight, bias, g') := reset_parameters g in_features out_features in
       modify (set_rng g');;
       mret (Module_
               [("weight", {| shape := [out_features; in_features]; value := weight;
                              requires_grad := true; on := cpu |});
                ("bias", {| shape := [out_features]; value := bias;
                            requires_grad := true; on := cpu |})]
               [])).

(** The seed utils.set_seeds fixes when it is called without argument. *)
Class Utils : Type := { seed : Z }.

(** Modelled from the spec: utils.set_seeds is imported by model_builder.py
    and is not among the sources. The spec says of the call: "Fixes a global
    random seed (for reproducible head initialization) immediately before
    constructing the new linear head": the global generator is put in the
    state of the fixed seed. *)
Definition set_seeds `{Torch} `{Utils} : M torch unit :=
  tcalled TSetSeeds (modify (set_rng (manual_seed seed))).

(** [create_model_baseline_vit] of src/model_builder.py. *)
Definition create_model_baseline_vit `{Torch} `{Utils} (out_feats : Z) (device : option device)
    : M torch nn_Module :=
  pretrained_vit ← (m ← vit_b_16; to device m);
  let pretrained_vit := map_parameters (set_requires_grad false) pretrained_vit in
  set_seeds;;
  heads ← (l ← nn_Linear 768 out_feats; to device l);
  mret (setattr pretrained_vit "heads" heads).

(** ** Names used in the statements *)

(** What the next system call meets: the exception it fails with, or
    None when nothing makes it fail. *)
Definition next_fault (s : state) : option exn :=
  match faults s with
  | f :: _ => f
  | [] => None
  end.

(** [data_path], [image_path] and [data_path / target_file] of
    [download_data]. *)
Definition data_path : path := Path.of_string "data/".
Definition image_path (destination : string) : path := data_path /: destination.
Definition archive_path (source : string) : path :=
  data_path /: Path.name (Path.of_string source).

(** The [i]-th member [e] of an archive is in place below [targetpath]:
    a directory member is a directory; a file member is a file with the
    member's content, unless a later file member of the archive has the
    same name and so replaced it. *)
Definition member_present (s : state) (targetpath : path) (members : list zentry)
    (i : nat) (e : zentry) : Prop :=
  if zentry_is_dir e then isdir s (member_path targetpath e) = true
  else (∀ j e', i < j → members !! j = Some e' → zentry_is_dir e' = false →
                arcname e' ≠ arcname e) →
       read_file s (member_path targetpath e) = Some (data e).

(** The part [new] of a record of calls shows a result that came through
    unchanged: when the result is an exception, the record ends with the
    call that raised it and holds no other raise (nothing was caught,
    retried or replaced); when it is a value, no call raised. [raised]
    is the entry of a raise. *)
Definition propagated {C A} (raised : exn → C) (new : list C) (r : exn + A) : Prop :=
  match r with
  | inl e => ∃ pre, new = (pre ++ [raised e])%list ∧ Forall (λ c, ∀ e', c ≠ raised e') pre
  | inr _ => Forall (λ c, ∀ e', c ≠ raised e') new
  end.

(** Every run of [m] adds to the record [lg] calls that show its result
    came through unchanged. *)
Definition tracks {St C A} (lg : St → list C) (raised : exn → C) (m : M St A) : Prop :=
  ∀ s s' r, m s = (s', r) → ∃ new, lg s' = (lg s ++ new)%list ∧ propagated raised new r.

(** What a call of model_builder.py leaves in the record after its own
    entry. *)
Definition toutcome {A} (r : exn + A) : list tcall :=
  match r with
  | inl e => [TRaised e]
  | inr _ => []
  end.

(** Where [m.to(d)] puts the parameters of [m]. *)
Definition moved `{Torch} (d : option device) (m : nn_Module) : nn_Module :=
  match d with
  | None => m
  | Some d => map_parameters (set_device d) m
  end.

(** The head [create_model_baseline_vit] attaches: the weight and bias
    nn.Linear draws for 768 inputs and [out_feats] outputs from the
    generator as the fixed seed leaves it, trainable, on [device] (on the
    cpu when none is given). *)
Definition seeded_head `{Torch} `{Utils} (out_feats : Z) (device : option device)
    : nn_Module :=
  let '(weight, bias, _) := reset_parameters (manual_seed seed) 768%Z out_feats in
  Module_ [("weight", {| shape := [out_feats; 768%Z]; value := weight;
                         requires_grad := true; on := default cpu device |});
           ("bias", {| shape := [out_feats]; value := bias;
                       requires_grad := true; on := default cpu device |})]
          [].

(** ** A concrete machine for the examples *)

(** A decoder that knows two archives: "PK-food" holds a class directory
    with one image, "PK-self" a single empty member called a.zip. No "~"
    expansion; every class directory holds one image. *)
Definition toy_runtime : Runtime := {|
  zip_decode := λ body,
    if decide (body = "PK-food") then
      Some [ {| filename := "pizza/"; data := "" |};
             {| filename := "pizza/1.jpg"; data := "jpeg" |} ]
    else if decide (body = "PK-self") then Some [ {| filename := "a.zip"; data := "" |} ]
    else None;
  expanduser := λ d, d;
  make_dataset := λ _ k classes,
    inr (imap (λ i c, {| sample_file := k ++ [c; "1.jpg"]; target := i |}) classes);
|}.

Definition toy_net (url : string) : exn + bytes :=
  if decide (url = "https://example.com/data/food.zip") then inr "PK-food"
  else if decide (url = "https://example.com/a.zip") then inr "PK-self"
  else inl ConnectionError.

(** A machine whose working directory /home is empty. *)
Definition fresh_machine : state := {|
  fs := {[ ["home"] := Dir ]};
  cwd := ["home"];
  net := toy_net;
  cpus := Some 8%Z;
  faults := [];
  calls := [];
|}.

(** The same machine with data/food already there, holding two classes. *)
Definition machine_with_food : state := {|
  fs := {[ ["home"] := Dir; ["home"; "data"] := Dir; ["home"; "data"; "food"] := Dir;
           ["home"; "data"; "food"; "sushi"] := Dir; ["home"; "data"; "food"; "pizza"] := Dir;
           ["home"; "data"; "food"; "readme.txt"] := File "classes" ]};
  cwd := ["home"];
  net := toy_net;
  cpus := Some 8%Z;
  faults := [];
  calls := [];
|}.



(** ** Relations between the states of a run, used in the proofs *)

(** The state changes of a computation all lie in a relation. *)
Definition respects {St A} (R : relation St) (m : M St A) : Prop :=
  ∀ s s' r, m s = (s', r) → R s s'.

(** No directory is lost. *)
Definition dirs_le (m m' : gmap (list string) node) : Prop :=
  ∀ k, is_dir_at m k = true → is_dir_at m' k = true.

(** Everything but the file system, the pending faults and the calls is
    as before, and no directory is lost. *)
Definition grows (s s' : state) : Prop :=
  cwd s' = cwd s ∧ net s' = net s ∧ cpus s' = cpus s ∧ dirs_le (fs s) (fs s').

(** Nothing but the file system and the pending faults has changed. *)
Definition frame (s s' : state) : Prop :=
  cwd s' = cwd s ∧ net s' = net s ∧ cpus s' = cpus s ∧ calls s' = calls s.

(** Nothing but the pending faults has changed, except that the file
    system may hold more. *)
Definition adds (s s' : state) : Prop := frame s s' ∧ fs s ⊆ fs s'.

(** A file stays a file (its content may change). *)
Definition stays (s s' : state) : Prop :=
  ∀ k body, fs s !! k = Some (File body) → ∃ body', fs s' !! k = Some (File body').

(** The record of calls is only added to. *)
Definition extends (s s' : state) : Prop := calls s `prefix_of` calls s'.

(** No call of the repository's code is recorded. *)
Definition silent (s s' : state) : Prop := calls s' = calls s.

(** What is at location [k] stays. *)
Definition keeps (k : list string) (s s' : state) : Prop :=
  ∀ v, fs s !! k = Some v → fs s' !! k = Some v.

(** A torch whose tensors are lists of integers and whose generator is a
    counter; only the cpu can be used. *)
Definition toy_torch : Torch := {|
  tensor := list Z;
  generator := Z;
  manual_seed := λ seed, seed;
  random_int64 := λ g, (g, (g + 1)%Z);
  randperm := λ seed n, rev (seq 0 n);
  reset_parameters := λ g i o, ([g; i; o], [g; o], (g + 1)%Z);
  init_vit := λ g, (g + 100)%Z;
|}.

Definition toy_utils : Utils := {| seed := 42%Z |}.

(** A pretrained model with a class token, one encoder layer and a head of
    1000 classes, all trainable as loaded. *)
Definition toy_vit : nn_Module (H := toy_torch) :=
  let p (sh : list Z) : Param (H := toy_torch) :=
    {| shape := sh; value := ([0%Z] : tensor (Torch := toy_torch));
       requires_grad := true; on := cpu |} in
  Module_ [("class_token", p [1; 1; 768]%Z)]
          [("encoder", Module_ [("ln.weight", p [768%Z]); ("ln.bias", p [768%Z])] []);
           ("heads", Module_ [] [("head", Module_ [("weight", p [1000; 768]%Z);
                                                    ("bias", p [1000%Z])] [])])].

Definition toy_process : torch (H := toy_torch) := {|
  rng := (7%Z : generator (Torch := toy_torch));
  hub := inr toy_vit;
  available := λ d, match d with cpu => true | _ => false end;
  tcalls := [];
|}.

(** The parameters of a module that are trainable. *)
Definition trainable `{Torch} (m : nn_Module) : list Param :=
  List.filter requires_grad (parameters m).

(** A machine on which data/food is a regular file. *)
Definition machine_with_food_file : state := {|
  fs := {[ ["home"] := Dir; ["home"; "data"] := Dir;
           ["home"; "data"; "food"] := File "not a directory" ]};
  cwd := ["home"];
  net := toy_net;
  cpus := Some 8%Z;
  faults := [];
  calls := [];
|}.

(** A machine that answers the test, lets the directory and the archive
    file be made and then fails the fourth system call, the GET, with a
    permission error. *)
Definition machine_failing_get : state := {|
  fs := {[ ["home"] := Dir; ["home"; "data"] := Dir;
           ["home"; "data"; "food.zip"] := File "an older archive" ]};
  cwd := ["home"];
  net := toy_net;
  cpus := None;
  faults := [None; None; None; Some PermissionError];
  calls := [];
|}.

(** A machine whose network answers every GET with an error page. *)
Definition machine_serving_html : state := {|
  fs := {[ ["home"] := Dir ]};
  cwd := ["home"];
  net := λ _, inr "<html>404 Not Found</html>";
  cpus := Some 8%Z;
  faults := [];
  calls := [];
|}.

(** The location [k] is neither where the archive of [source] is nor
    inside the directory of [destination], as the paths resolve in [s]. *)
Definition apart (source destination : string) (s : state) (k : list string) : Prop :=
  resolve s (archive_path source) ≠ inr k
  ∧ ∀ kI, resolve s (image_path destination) = inr kI → ¬ kI `prefix_of` k.

(** No directory is lost and what is apart is as before. *)
Definition confined (source destination : string) (s s' : state) : Prop :=
  grows s s' ∧ ∀ k, apart source destination s' k → keeps k s s'.

(** A decoder that knows one archive, "PK-up", whose only member is named
    to leave the directory it is extracted into, and a machine with a file
    of that name above data/ whose network serves that archive. *)
Definition runtime_with_dotdot : Runtime := {|
  zip_decode := λ body,
    if decide (body = "PK-up") then
      Some [ {| filename := "../../notes.txt"; data := "theirs" |} ]
    else None;
  expanduser := λ d, d;
  make_dataset := λ _ _ _, inr [];
|}.

Definition machine_with_notes : state := {|
  fs := {[ ["home"] := Dir; ["home"; "notes.txt"] := File "mine" ]};
  cwd := ["home"];
  net := λ _, inr "PK-up";
  cpus := Some 8%Z;
  faults := [];
  calls := [];
|}.

(** A process like [toy_process] on which every device can be used. *)
Definition toy_process_with_gpu : torch (H := toy_torch) := {|
  rng := (1000%Z : generator (Torch := toy_torch));
  hub := inr toy_vit;
  available := λ _, true;
  tcalls := [];
|}.

(** * Properties *)

Open Scope list_scope.

(** ** Path examples *)

Example of_string_data :
  Path.of_string "data/" = Path.Mk "" ["data"].
Proof. reflexivity. Qed.

Example join_relative :
  Path.of_string "data/" /: "pizza_steak_sushi" = Path.Mk "" ["data"; "pizza_steak_sushi"].
Proof. reflexivity. Qed.

Example join_absolute :
  Path.of_string "data/" /: "/tmp/x" = Path.Mk "/" ["tmp"; "x"].
Proof. reflexivity. Qed.

Example name_of_url :
  Path.name (Path.of_string "https://github.com/mrdbourke/pytorch-deep-learning/raw/main/data/pizza_steak_sushi.zip")
  = "pizza_steak_sushi.zip".
Proof. reflexivity. Qed.

Example to_string_image_path :
  Path.to_string (image_path "pizza_steak_sushi") = "data/pizza_steak_sushi".
Proof. reflexivity. Qed.

(** ** Running a computation step by step *)

Section Steps.
Context {St A B : Type}.
Implicit Types (m : M St A) (k : A → M St B).

Lemma bind_inr m k s s1 a : m s = (s1, inr a) → (m ≫= k) s = k a s1.
Proof. intros E. unfold mbind, M_bind. by rewrite E. Qed.

Lemma bind_inl m k s s1 e : m s = (s1, inl e) → (m ≫= k) s = (s1, inl e).
Proof. intros E. unfold mbind, M_bind. by rewrite E. Qed.

Lemma bind_inv m k s s' r :
  (m ≫= k) s = (s', r) →
  (∃ e, m s = (s', inl e) ∧ r = inl e) ∨ (∃ s1 a, m s = (s1, inr a) ∧ k a s1 = (s', r)).
Proof.
  unfold mbind, M_bind. destruct (m s) as [s1 [e|a]] eqn:E; intros E'.
  - left. exists e. by simplify_eq.
  - right. by exists s1, a.
Qed.

Lemma bind_inv_inr m k s s' b :
  (m ≫= k) s = (s', inr b) → ∃ s1 a, m s = (s1, inr a) ∧ k a s1 = (s', inr b).
Proof.
  intros E. apply bind_inv in E as [(e & _ & ?) | ?]; [done | done].
Qed.

End Steps.

Section Respects.
Context {St : Type} (R : relation St) `{!Reflexive R, !Transitive R}.

Lemma respects_ret {A} (a : A) : respects R (mret a : M St A).
Proof. intros s s' r [= <- _]. reflexivity. Qed.

Lemma respects_raise {A} e : respects R (raise e : M St A).
Proof. intros s s' r [= <- _]. reflexivity. Qed.

Lemma respects_gets {A} (f : St → A) : respects R (gets f).
Proof. intros s s' r [= <- _]. reflexivity. Qed.

Lemma respects_lift {A} (f : St → exn + A) : respects R (lift f).
Proof. intros s s' r [= <- _]. reflexivity. Qed.

Lemma respects_bind {A B} (m : M St A) (k : A → M St B) :
  respects R m → (∀ a, respects R (k a)) → respects R (m ≫= k).
Proof.
  intros Hm Hk s s' r E. apply bind_inv in E as [(e & E & _) | (s1 & a & E1 & E2)].
  - by eapply Hm.
  - etrans; [by eapply Hm | by eapply Hk].
Qed.

Lemma respects_try_except {A} (m : M St A) handles h :
  respects R m → (∀ e, respects R (h e)) → respects R (try_except m handles h).
Proof.
  intros Hm Hh s s' r. unfold try_except.
  destruct (m s) as [s1 [e|a]] eqn:E.
  - destruct (handles e).
    + intros E'. etrans; [by eapply Hm | by eapply Hh].
    + intros [= <- _]. by eapply Hm.
  - intros [= <- _]. by eapply Hm.
Qed.

End Respects.

(** ** The file system *)

#[local] Instance dirs_le_refl : Reflexive dirs_le.
Proof. by intros m k. Qed.

#[local] Instance dirs_le_trans : Transitive dirs_le.
Proof. intros m1 m2 m3 H12 H23 k Hk. by apply H23, H12. Qed.

#[local] Instance grows_refl : Reflexive grows.
Proof. by intros s. Qed.

#[local] Instance grows_trans : Transitive grows.
Proof.
  intros s1 s2 s3 (? & ? & ? & ?) (? & ? & ? & ?).
  repeat split; try congruence. by etrans.
Qed.

#[local] Instance silent_refl : Reflexive silent.
Proof. by intros s. Qed.

#[local] Instance silent_trans : Transitive silent.
Proof. unfold silent. intros s1 s2 s3 ??. congruence. Qed.

#[local] Instance keeps_refl k : Reflexive (keeps k).
Proof. by intros s v. Qed.

#[local] Instance keeps_trans k : Transitive (keeps k).
Proof. intros s1 s2 s3 H12 H23 v Hv. by apply H23, H12. Qed.

Lemma is_dir_at_exists m k : is_dir_at m k = true → exists_at m k = true.
Proof. unfold is_dir_at, exists_at. destruct k; [done|]. by destruct (m !! _) as [[]|]. Qed.

Lemma is_dir_at_lookup m k :
  is_dir_at m k = true ↔ k = [] ∨ m !! k = Some Dir.
Proof.
  unfold is_dir_at. destruct k as [|c k]; [by split; auto|].
  destruct (m !! (c :: k)) as [[]|]; split; intros Hk; try done; try (by right);
    by destruct Hk.
Qed.

Lemma exists_at_lookup m k :
  exists_at m k = true ↔ k = [] ∨ is_Some (m !! k).
Proof.
  unfold exists_at. destruct k as [|c k]; [by split; auto|].
  destruct (m !! (c :: k)) as [[]|]; split; intros Hk; try done; try (by right; eexists);
    by destruct Hk as [|[]].
Qed.

Lemma dirs_le_insert_Dir m k : dirs_le m (<[k := Dir]> m).
Proof.
  intros k' Hk'. apply is_dir_at_lookup in Hk' as [-> | Hk']; apply is_dir_at_lookup; [by left|].
  right. destruct (decide (k = k')) as [-> | Hne]; [apply lookup_insert_eq | by rewrite lookup_insert_ne].
Qed.

Lemma dirs_le_insert_File' m k body :
  m !! k ≠ Some Dir → dirs_le m (<[k := File body]> m).
Proof.
  intros Hk k' Hk'.
  apply is_dir_at_lookup in Hk' as [-> | Hk']; apply is_dir_at_lookup; [by left|].
  right. destruct (decide (k = k')) as [-> | Hne]; [done|]. by rewrite lookup_insert_ne.
Qed.

Lemma dirs_le_insert_File m k body :
  is_dir_at m k = false → dirs_le m (<[k := File body]> m).
Proof.
  intros Hk. apply dirs_le_insert_File'. intros Hd.
  assert (is_dir_at m k = true) by (apply is_dir_at_lookup; by right). congruence.
Qed.

Lemma dirs_le_delete m k : is_dir_at m k = false → dirs_le m (delete k m).
Proof.
  intros Hk k' Hk'. destruct (decide (k = k')) as [-> | Hne]; [congruence|].
  apply is_dir_at_lookup in Hk' as [-> | Hk']; apply is_dir_at_lookup; [by left|].
  right. by rewrite lookup_delete_ne.
Qed.

Lemma walk_mono m m' cur ps k :
  dirs_le m m' → walk m cur ps = inr k → walk m' cur ps = inr k.
Proof.
  intros Hle. revert cur. induction ps as [|c ps IH]; intros cur; simpl; [done|].
  destruct (is_dir_at m cur) eqn:E.
  - rewrite (Hle _ E). apply IH.
  - by destruct (exists_at m cur).
Qed.

Lemma resolve_mono s s' p k :
  grows s s' → resolve s p = inr k → resolve s' p = inr k.
Proof.
  intros (Hc & _ & _ & Hle). unfold resolve. rewrite Hc.
  set (start := if decide (Path.root p = "") then cwd s else []).
  destruct (is_dir_at (fs s) start) eqn:E.
  - rewrite (Hle _ E). by apply walk_mono.
  - by destruct (exists_at (fs s) start).
Qed.

Lemma isdir_mono s s' p : grows s s' → isdir s p = true → isdir s' p = true.
Proof.
  intros Hg. unfold isdir. destruct (resolve s p) as [e|k] eqn:E; [done|].
  rewrite (resolve_mono _ _ _ _ Hg E). apply Hg.
Qed.

(** Resolution reads the file system and the working directory only. *)
Lemma resolve_ext s s' p : fs s' = fs s → cwd s' = cwd s → resolve s' p = resolve s p.
Proof. intros Hf Hc. unfold resolve. by rewrite Hf, Hc. Qed.

(** A path whose components are plain names resolves below where it starts. *)
Lemma walk_plain m cur ps k :
  Forall (λ c, c ≠ "..") ps → walk m cur ps = inr k → k = cur ++ ps.
Proof.
  intros Hps. revert cur. induction Hps as [|c ps Hc _ IH]; intros cur; simpl.
  - intros [= <-]. by rewrite app_nil_r.
  - destruct (is_dir_at m cur); [|by destruct (exists_at m cur)].
    rewrite decide_False by done. intros E%IH. by rewrite E, <- app_assoc.
Qed.

Lemma walk_app m cur ps qs :
  walk m cur (ps ++ qs) = match walk m cur ps with
                          | inr k => walk m k qs
                          | inl e => inl e
                          end.
Proof.
  revert cur. induction ps as [|c ps IH]; intros cur; simpl; [done|].
  destruct (is_dir_at m cur); [apply IH|]. by destruct (exists_at m cur).
Qed.

(** *** What each system call does *)

Ltac unfold_M :=
  unfold mbind, M_bind, mret, M_ret, gets, lift, modify, raise in *; simpl in *.

Lemma syscall_spec s s' r :
  syscall s = (s', r) → frame s s' ∧ fs s' = fs s.
Proof.
  unfold syscall. destruct (faults s) as [|[e|] l]; intros [= <- _]; by repeat split.
Qed.

Lemma syscall_resolve s s' r p : syscall s = (s', r) → resolve s' p = resolve s p.
Proof. intros (Hf & Hfs)%syscall_spec. apply resolve_ext; [done | apply Hf]. Qed.

Lemma os_mkdir_spec p s s' r :
  os_mkdir p s = (s', r) →
  frame s s'
  ∧ ((∃ e, r = inl e ∧ fs s' = fs s)
     ∨ (∃ k, r = inr tt ∧ resolve s p = inr k ∧ exists_at (fs s) k = false
             ∧ fs s' = <[k := Dir]> (fs s))).
Proof.
  unfold os_mkdir. intros E.
  apply bind_inv in E as [(e & E & ->) | (s1 & [] & E1 & E)].
  { apply syscall_spec in E as [? ?]. split; [done|]. left. by exists e. }
  pose proof (syscall_resolve _ _ _ p E1) as Hr.
  apply syscall_spec in E1 as [Hf Hfs].
  unfold_M. rewrite Hr in E. destruct (resolve s p) as [e|k]; simplify_eq.
  { split; [done|]. left. by exists e. }
  rewrite Hfs in E. destruct (exists_at (fs s) k) eqn:Ex; simplify_eq.
  { split; [done|]. left. by eexists. }
  split; [done|]. right. exists k. simpl. by rewrite Hfs.
Qed.

Lemma sys_open_wb_spec p s s' r :
  sys_open_wb p s = (s', r) →
  frame s s'
  ∧ ((∃ e, r = inl e ∧ fs s' = fs s)
     ∨ (∃ k, r = inr k ∧ resolve s p = inr k ∧ is_dir_at (fs s) k = false
             ∧ fs s' = <[k := File ""]> (fs s))).
Proof.
  unfold sys_open_wb. intros E.
  apply bind_inv in E as [(e & E & ->) | (s1 & [] & E1 & E)].
  { apply syscall_spec in E as [? ?]. split; [done|]. left. by exists e. }
  pose proof (syscall_resolve _ _ _ p E1) as Hr.
  apply syscall_spec in E1 as [Hf Hfs].
  unfold_M. rewrite Hr in E. destruct (resolve s p) as [e|k]; simplify_eq.
  { split; [done|]. left. by exists e. }
  rewrite Hfs in E. destruct (is_dir_at (fs s) k) eqn:Ex; simplify_eq.
  { split; [done|]. left. by eexists. }
  split; [done|]. right. exists k. simpl. by rewrite Hfs.
Qed.

Lemma sys_write_spec k body s s' r :
  sys_write k body s = (s', r) →
  frame s s'
  ∧ ((∃ e, r = inl e ∧ fs s' = fs s)
     ∨ (r = inr tt ∧ fs s' = match fs s !! k with
                              | Some (File _) => <[k := File body]> (fs s)
                              | _ => fs s
                              end)).
Proof.
  unfold sys_write. intros E.
  apply bind_inv in E as [(e & E & ->) | (s1 & [] & E1 & E)].
  { apply syscall_spec in E as [? ?]. split; [done|]. left. by exists e. }
  apply syscall_spec in E1 as [Hf Hfs].
  unfold_M. simplify_eq. split; [done|]. right. simpl. by rewrite Hfs.
Qed.

Lemma sys_remove_spec p s s' r :
  sys_remove p s = (s', r) →
  frame s s'
  ∧ ((∃ e, r = inl e ∧ fs s' = fs s)
     ∨ (∃ k, r = inr tt ∧ resolve s p = inr k ∧ is_dir_at (fs s) k = false
             ∧ exists_at (fs s) k = true ∧ fs s' = delete k (fs s))).
Proof.
  unfold sys_remove. intros E.
  apply bind_inv in E as [(e & E & ->) | (s1 & [] & E1 & E)].
  { apply syscall_spec in E as [? ?]. split; [done|]. left. by exists e. }
  pose proof (syscall_resolve _ _ _ p E1) as Hr.
  apply syscall_spec in E1 as [Hf Hfs].
  unfold_M. rewrite Hr in E. destruct (resolve s p) as [e|k]; simplify_eq.
  { split; [done|]. left. by exists e. }
  rewrite Hfs in E. destruct (is_dir_at (fs s) k) eqn:Ed; simplify_eq.
  { split; [done|]. left. by eexists. }
  rewrite Hfs in E. destruct (exists_at (fs s) k) eqn:Ex; simplify_eq.
  - split; [done|]. right. exists k. simpl. by rewrite Hfs.
  - split; [done|]. left. by eexists.
Qed.

#[local] Instance frame_refl : Reflexive frame.
Proof. by intros s. Qed.

#[local] Instance frame_trans : Transitive frame.
Proof. intros s1 s2 s3 (? & ? & ? & ?) (? & ? & ? & ?). repeat split; congruence. Qed.

#[local] Instance adds_refl : Reflexive adds.
Proof. by intros s. Qed.

#[local] Instance adds_trans : Transitive adds.
Proof. intros s1 s2 s3 [? ?] [? ?]. split; by etrans. Qed.

Lemma dirs_le_subseteq (m m' : gmap (list string) node) : m ⊆ m' → dirs_le m m'.
Proof.
  intros Hsub k [-> | Hk]%is_dir_at_lookup; apply is_dir_at_lookup; [by left|].
  right. by eapply lookup_weaken.
Qed.

Lemma adds_grows s s' : adds s s' → grows s s'.
Proof. intros [(? & ? & ? & ?) ?]. repeat split; try done. by apply dirs_le_subseteq. Qed.

Lemma adds_silent s s' : adds s s' → silent s s'.
Proof. by intros [(? & ? & ? & ?) ?]. Qed.

Lemma adds_keeps k s s' : adds s s' → keeps k s s'.
Proof. intros [_ Hsub] v Hv. by eapply lookup_weaken. Qed.

Lemma exists_at_false m k : exists_at m k = false → m !! k = None.
Proof.
  intros E. destruct (m !! k) eqn:El; [|done].
  assert (exists_at m k = true) by (apply exists_at_lookup; eauto). congruence.
Qed.

Lemma respects_syscall_adds : respects adds syscall.
Proof. intros s s' r [Hf Hfs]%syscall_spec. split; [done|]. by rewrite Hfs. Qed.

Lemma respects_os_mkdir p : respects adds (os_mkdir p).
Proof.
  intros s s' r [Hf [(e & _ & Hfs) | (k & _ & _ & Hex & Hfs)]]%os_mkdir_spec;
    (split; [done|]); rewrite Hfs; [done|].
  by apply insert_subseteq, exists_at_false.
Qed.

(** The stat of [Path.is_dir]: it takes the next fault, answers what is
    there when there is none, False when the fault is one it ignores, and
    raises the fault otherwise. *)
Lemma stat_is_dir_spec p s s' r :
  stat_is_dir p s = (s', r) →
  adds s s' ∧ fs s' = fs s ∧ faults s' = tail (faults s)
  ∧ r = match next_fault s with
        | None => inr (isdir s p)
        | Some e => if is_dir_ignores e then inr false else inl e
        end.
Proof.
  unfold stat_is_dir, try_except, next_fault, syscall, mbind, M_bind, gets.
  destruct (faults s) as [|[e|] l] eqn:Hf.
  - intros [= <- <-]. by rewrite Hf.
  - destruct (is_dir_ignores e); intros [= <- <-]; by repeat split.
  - intros [= <- <-]. by repeat split.
Qed.

Lemma respects_stat_is_dir p : respects adds (stat_is_dir p).
Proof. by intros s s' r (? & _)%stat_is_dir_spec. Qed.

Lemma stat_is_dir_true p s s' : stat_is_dir p s = (s', inr true) → isdir s' p = true.
Proof.
  intros ([(Hc & _) _] & Hfs & _ & Hr)%stat_is_dir_spec.
  assert (isdir s p = true) as Hd.
  { destruct (next_fault s) as [e|]; [by destruct (is_dir_ignores e) | congruence]. }
  unfold isdir in *. rewrite (resolve_ext s s') by done. by rewrite Hfs.
Qed.

Lemma respects_mkdir_exist_ok p : respects adds (mkdir_exist_ok p).
Proof.
  apply respects_try_except; try apply _; [apply respects_os_mkdir|].
  intros e. case_decide; [apply respects_raise; apply _|].
  apply respects_bind; try apply _; [apply respects_stat_is_dir|].
  intros []; [apply respects_ret | apply respects_raise]; apply _.
Qed.

Lemma respects_mkdir_parents root rparts : respects adds (mkdir_parents root rparts).
Proof.
  induction rparts as [|c rparts IH]; simpl.
  - apply respects_try_except; try apply _; [apply respects_os_mkdir|].
    intros e. case_decide; [apply respects_raise; apply _|].
    apply respects_bind; try apply _; [apply respects_stat_is_dir|].
    intros []; [apply respects_ret | apply respects_raise]; apply _.
  - apply respects_try_except; try apply _; [apply respects_os_mkdir|].
    intros e. case_decide.
    + apply respects_bind; try apply _; [done|]. intros _. apply respects_mkdir_exist_ok.
    + apply respects_bind; try apply _; [apply respects_stat_is_dir|].
      intros []; [apply respects_ret | apply respects_raise]; apply _.
Qed.

Lemma respects_makedirs root rparts : respects adds (makedirs root rparts).
Proof.
  induction rparts as [|c rparts IH]; simpl; [apply respects_os_mkdir|].
  apply respects_bind; try apply _; [apply respects_gets; apply _|].
  intros ex. apply respects_bind; try apply _; [|intros _; apply respects_os_mkdir].
  destruct (_ && _); [|apply respects_ret; apply _].
  apply respects_try_except; try apply _; [done|]. intros _. apply respects_ret; apply _.
Qed.

(** *** Making a directory leaves a directory *)

Lemma os_mkdir_isdir p s s' : os_mkdir p s = (s', inr tt) → isdir s' p = true.
Proof.
  intros E. pose proof (respects_os_mkdir p _ _ _ E) as Hg%adds_grows.
  apply os_mkdir_spec in E as [_ [(e & ? & _) | (k & _ & Hr & _ & Hfs)]]; [done|].
  unfold isdir. rewrite (resolve_mono _ _ _ _ Hg Hr), Hfs.
  apply is_dir_at_lookup. right. apply lookup_insert_eq.
Qed.

Lemma mkdir_exist_ok_isdir p s s' : mkdir_exist_ok p s = (s', inr tt) → isdir s' p = true.
Proof.
  unfold mkdir_exist_ok, try_except.
  destruct (os_mkdir p s) as [s1 [e|[]]] eqn:E.
  - destruct (is_OSError e); [|done]. case_decide; [done|].
    intros (s2 & d & Ed & E2)%bind_inv_inr. destruct d; [|done].
    injection E2 as <-. by eapply stat_is_dir_true.
  - intros [= <-]. by eapply os_mkdir_isdir.
Qed.

Lemma mkdir_parents_isdir root rparts s s' :
  mkdir_parents root rparts s = (s', inr tt) → isdir s' (Path.Mk root (rev rparts)) = true.
Proof.
  destruct rparts as [|c rparts]; simpl; unfold try_except;
    (destruct (os_mkdir _ s) as [s1 [e|[]]] eqn:E;
     [| intros [= <-]; by eapply os_mkdir_isdir]);
    (destruct (is_OSError e); [|done]); case_decide.
  - done.
  - intros (s2 & d & Ed & E2)%bind_inv_inr. destruct d; [|done].
    injection E2 as <-. by eapply stat_is_dir_true.
  - intros (s2 & [] & _ & E2)%bind_inv_inr. by apply mkdir_exist_ok_isdir in E2.
  - intros (s2 & d & Ed & E2)%bind_inv_inr. destruct d; [|done].
    injection E2 as <-. by eapply stat_is_dir_true.
Qed.

(** *** Every operation keeps the directories and the surroundings *)

Lemma respects_mono {St A} (R R' : relation St) (m : M St A) :
  (∀ s s', R s s' → R' s s') → respects R m → respects R' m.
Proof. intros HR Hm s s' r E. by eapply HR, Hm. Qed.

Lemma respects_modify {St} (R : relation St) (f : St → St) :
  (∀ s, R s (f s)) → respects R (modify f).
Proof. intros Hf s s' r [= <- _]. apply Hf. Qed.

Lemma adds_frame s s' : adds s s' → frame s s'.
Proof. by intros [? _]. Qed.

Lemma grows_syscall : respects grows syscall.
Proof. eapply respects_mono; [apply adds_grows | apply respects_syscall_adds]. Qed.

Lemma frame_syscall : respects frame syscall.
Proof. eapply respects_mono; [apply adds_frame | apply respects_syscall_adds]. Qed.

Lemma grows_os_mkdir p : respects grows (os_mkdir p).
Proof. eapply respects_mono; [apply adds_grows | apply respects_os_mkdir]. Qed.

Lemma frame_os_mkdir p : respects frame (os_mkdir p).
Proof. eapply respects_mono; [apply adds_frame | apply respects_os_mkdir]. Qed.

Lemma grows_mkdir_parents root rparts : respects grows (mkdir_parents root rparts).
Proof. eapply respects_mono; [apply adds_grows | apply respects_mkdir_parents]. Qed.

Lemma frame_mkdir_parents root rparts : respects frame (mkdir_parents root rparts).
Proof. eapply respects_mono; [apply adds_frame | apply respects_mkdir_parents]. Qed.

Lemma grows_makedirs root rparts : respects grows (makedirs root rparts).
Proof. eapply respects_mono; [apply adds_grows | apply respects_makedirs]. Qed.

Lemma frame_makedirs root rparts : respects frame (makedirs root rparts).
Proof. eapply respects_mono; [apply adds_frame | apply respects_makedirs]. Qed.

Lemma grows_of_spec s s' :
  frame s s' → dirs_le (fs s) (fs s') → grows s s'.
Proof. intros (? & ? & ? & ?) ?. by repeat split. Qed.

Lemma frame_sys_open_wb p : respects frame (sys_open_wb p).
Proof. by intros s s' r [? _]%sys_open_wb_spec. Qed.

Lemma grows_sys_open_wb p : respects grows (sys_open_wb p).
Proof.
  intros s s' r [Hf [(e & _ & Hfs) | (k & _ & _ & Hd & Hfs)]]%sys_open_wb_spec;
    apply grows_of_spec; try done; rewrite Hfs; [done|].
  by apply dirs_le_insert_File.
Qed.

Lemma frame_sys_write k body : respects frame (sys_write k body).
Proof. by intros s s' r [? _]%sys_write_spec. Qed.

Lemma grows_sys_write k body : respects grows (sys_write k body).
Proof.
  intros s s' r [Hf [(e & _ & Hfs) | (_ & Hfs)]]%sys_write_spec;
    apply grows_of_spec; try done; rewrite Hfs; [done|].
  destruct (fs s !! k) as [[|old]|] eqn:Ek; try done.
  apply dirs_le_insert_File'. by rewrite Ek.
Qed.

Lemma frame_sys_remove p : respects frame (sys_remove p).
Proof. by intros s s' r [? _]%sys_remove_spec. Qed.

Lemma grows_sys_remove p : respects grows (sys_remove p).
Proof.
  intros s s' r [Hf [(e & _ & Hfs) | (k & _ & _ & Hd & _ & Hfs)]]%sys_remove_spec;
    apply grows_of_spec; try done; rewrite Hfs; [done|].
  by apply dirs_le_delete.
Qed.

Lemma grows_log c s : grows s (log c s).
Proof. by repeat split. Qed.

Lemma frame_extends s s' : frame s s' → extends s s'.
Proof. intros (_ & _ & _ & Hc). unfold extends. by rewrite Hc. Qed.

#[local] Instance extends_refl : Reflexive extends.
Proof. intros s. unfold extends. reflexivity. Qed.

#[local] Instance extends_trans : Transitive extends.
Proof. unfold extends. intros s1 s2 s3 H12 H23. by etrans. Qed.

Lemma grows_stat_is_dir p : respects grows (stat_is_dir p).
Proof. eapply respects_mono; [apply adds_grows | apply respects_stat_is_dir]. Qed.

Lemma frame_stat_is_dir p : respects frame (stat_is_dir p).
Proof. eapply respects_mono; [apply adds_frame | apply respects_stat_is_dir]. Qed.

Create HintDb run discriminated.

#[local] Hint Resolve grows_stat_is_dir frame_stat_is_dir : run.

#[local] Hint Resolve grows_syscall grows_os_mkdir grows_mkdir_parents grows_makedirs
  grows_sys_open_wb grows_sys_write grows_sys_remove
  frame_syscall frame_os_mkdir frame_mkdir_parents frame_makedirs
  frame_sys_open_wb frame_sys_write frame_sys_remove : run.

(** Proves [respects R m] for a computation put together from the
    operations above. *)
Ltac respects_step :=
  match goal with
  | |- Reflexive _ => apply _
  | |- Transitive _ => apply _
  | |- ∀ _, _ => intros ?
  | |- grows _ (log _ _) => apply grows_log
  | |- extends _ (log _ _) => by apply prefix_app_r
  | |- respects extends _ =>
      solve [eapply respects_mono; [apply frame_extends | eauto with run]]
  | |- respects _ _ => solve [eauto with run]
  | |- respects _ (mret _) => apply respects_ret
  | |- respects _ (raise _) => apply respects_raise
  | |- respects _ (gets _) => apply respects_gets
  | |- respects _ (lift _) => apply respects_lift
  | |- respects _ (modify _) => apply respects_modify
  | |- respects _ (_ ≫= _) => apply respects_bind
  | |- respects _ (called _ _) => unfold called
  | |- respects _ (try_except _ _ _) => apply respects_try_except
  | |- respects _ (if ?b then _ else _) => destruct b
  | |- respects _ (match ?x with _ => _ end) => destruct x
  | |- _ => done
  end.

Ltac respects_tac := repeat respects_step.

Lemma grows_extract_member tp e : respects grows (extract_member tp e).
Proof.
  unfold extract_member, os_path_isdir, path_exists. respects_tac.
Qed.

Lemma frame_extract_member tp e : respects frame (extract_member tp e).
Proof. unfold extract_member, os_path_isdir, path_exists. respects_tac. Qed.

#[local] Hint Resolve grows_extract_member frame_extract_member : run.

Lemma grows_extract_members tp members : respects grows (extract_members tp members).
Proof. induction members; simpl; respects_tac. Qed.

Lemma frame_extract_members tp members : respects frame (extract_members tp members).
Proof. induction members; simpl; respects_tac. Qed.

#[local] Hint Resolve grows_extract_members frame_extract_members : run.


(** ** Extraction *)

Lemma arcname_plain e : Forall (λ c, c ≠ "..") (arcname e).
Proof.
  unfold arcname. apply Forall_forall. intros c Hc%list_elem_of_In.
  apply filter_In in Hc as [_ Hc]. intros ->. by vm_compute in Hc.
Qed.

(** Where the members go once the target is a directory at [kI]. *)
Lemma resolve_member s tp e kI k :
  resolve s tp = inr kI →
  resolve s (member_path tp e) = inr k → k = kI ++ arcname e.
Proof.
  unfold resolve, member_path. simpl.
  destruct (is_dir_at (fs s) _); [|by destruct (exists_at (fs s) _)].
  rewrite walk_app. intros ->. apply walk_plain, arcname_plain.
Qed.

Lemma keeps_insert_ne k k0 v (s s' : state) :
  k ≠ k0 → fs s' = <[k := v]> (fs s) → keeps k0 s s'.
Proof. intros Hne Hfs v0 Hv0. by rewrite Hfs, lookup_insert_ne. Qed.

Lemma keeps_same k0 (s s' : state) : fs s' = fs s → keeps k0 s s'.
Proof. intros Hfs v0 Hv0. by rewrite Hfs. Qed.

Lemma sys_open_wb_keeps p k0 s s' r :
  sys_open_wb p s = (s', r) → resolve s p ≠ inr k0 → keeps k0 s s'.
Proof.
  intros [_ [(e & _ & Hfs) | (k & _ & Hr & _ & Hfs)]]%sys_open_wb_spec Hne.
  - by apply keeps_same.
  - eapply keeps_insert_ne; [|done]. congruence.
Qed.

Lemma sys_write_keeps k body k0 s s' r :
  sys_write k body s = (s', r) → k ≠ k0 → keeps k0 s s'.
Proof.
  intros [_ [(e & _ & Hfs) | (_ & Hfs)]]%sys_write_spec Hne.
  - by apply keeps_same.
  - destruct (fs s !! k) as [[|old]|]; try by apply keeps_same.
    by eapply keeps_insert_ne.
Qed.

Lemma sys_remove_keeps p k0 s s' r :
  sys_remove p s = (s', r) → resolve s p ≠ inr k0 → keeps k0 s s'.
Proof.
  intros [_ [(e & _ & Hfs) | (k & _ & Hr & _ & _ & Hfs)]]%sys_remove_spec Hne.
  - by apply keeps_same.
  - intros v Hv. rewrite Hfs, lookup_delete_ne; [done | congruence].
Qed.

(** [extract_member] first makes the upper directories, which only adds
    to the file system, then the member itself. *)
Lemma extract_member_inv tp e s s' r :
  extract_member tp e s = (s', r) →
  ∃ s1, adds s s1
        ∧ ((∃ e0, r = inl e0 ∧ s' = s1)
           ∨ (if zentry_is_dir e then
                d ← os_path_isdir (member_path tp e);
                if d : bool then mret tt else os_mkdir (member_path tp e)
              else f ← sys_open_wb (member_path tp e); sys_write f (data e)) s1 = (s', r)).
Proof.
  unfold extract_member. intros E.
  apply bind_inv in E as [(e0 & E & ->) | (s0 & ex & E0 & E)]; [by unfold_M|].
  assert (s0 = s) as -> by (unfold path_exists, gets in E0; by simplify_eq).
  apply bind_inv in E as [(e0 & E & ->) | (s1 & [] & E1 & E)].
  - exists s'. split; [|left; by exists e0].
    destruct (_ && _); [by eapply respects_makedirs | done].
  - exists s1. split; [|by right].
    destruct (_ && _); [by eapply respects_makedirs | by injection E1 as <-].
Qed.

Lemma extract_member_file tp e s s' kI :
  extract_member tp e s = (s', inr tt) → zentry_is_dir e = false →
  resolve s tp = inr kI →
  resolve s' (member_path tp e) = inr (kI ++ arcname e)
  ∧ fs s' !! (kI ++ arcname e) = Some (File (data e)).
Proof.
  intros (s1 & Ha & [(e0 & ? & _) | E])%extract_member_inv He HkI; [done|].
  rewrite He in E. apply bind_inv_inr in E as (s2 & f & Eo & Ew).
  pose proof (grows_sys_open_wb _ _ _ _ Eo) as Ho.
  pose proof (grows_sys_write _ _ _ _ _ Ew) as Hw.
  apply sys_open_wb_spec in Eo as [_ [(? & ? & _) | (k & [= <-] & Hr & _ & Hfs2)]]; [done|].
  assert (f = kI ++ arcname e) as ->.
  { eapply resolve_member; [|done]. by eapply resolve_mono; [apply adds_grows|]. }
  split.
  - eapply resolve_mono; [|done]. by etrans.
  - apply sys_write_spec in Ew as [_ [(? & ? & _) | (_ & ->)]]; [done|].
    rewrite Hfs2, lookup_insert_eq. apply lookup_insert_eq.
Qed.

Lemma extract_member_dir tp e s s' :
  extract_member tp e s = (s', inr tt) → zentry_is_dir e = true →
  isdir s' (member_path tp e) = true.
Proof.
  intros (s1 & Ha & [(e0 & ? & _) | E])%extract_member_inv He; [done|].
  rewrite He in E. apply bind_inv_inr in E as (s2 & d & Ed & E).
  unfold os_path_isdir, gets in Ed. simplify_eq. destruct (isdir s2 _) eqn:Hd.
  - unfold_M. by simplify_eq.
  - by eapply os_mkdir_isdir.
Qed.

Lemma extract_member_keeps tp e s s' r kI k0 :
  extract_member tp e s = (s', r) → resolve s tp = inr kI →
  zentry_is_dir e = true ∨ k0 ≠ kI ++ arcname e →
  keeps k0 s s'.
Proof.
  intros (s1 & Ha & [(e0 & _ & ->) | E])%extract_member_inv HkI Hk0;
    [by apply adds_keeps|].
  etrans; [by apply adds_keeps|].
  destruct (zentry_is_dir e) eqn:He.
  - apply adds_keeps. revert E. apply (respects_bind adds); [apply respects_gets; apply _|].
    intros []; [apply respects_ret; apply _ | apply respects_os_mkdir].
  - destruct Hk0 as [? | Hk0]; [done|].
    apply bind_inv in E as [(e0 & Eo & ->) | (s2 & f & Eo & Ew)].
    + eapply sys_open_wb_keeps; [done|]. intros Hr. apply Hk0.
      eapply resolve_member; [|done]. by eapply resolve_mono; [apply adds_grows|].
    + assert (f = kI ++ arcname e) as ->.
      { apply sys_open_wb_spec in Eo as [_ [(? & ? & _) | (k & [= <-] & Hr & _)]]; [done|].
        eapply resolve_member; [|done]. by eapply resolve_mono; [apply adds_grows|]. }
      etrans; [|by eapply sys_write_keeps].
      eapply sys_open_wb_keeps; [done|]. intros Hr. apply Hk0.
      eapply resolve_member; [|done]. by eapply resolve_mono; [apply adds_grows|].
Qed.

Lemma extract_members_keeps tp members s s' r kI k0 :
  extract_members tp members s = (s', r) → resolve s tp = inr kI →
  Forall (λ e, zentry_is_dir e = true ∨ k0 ≠ kI ++ arcname e) members →
  keeps k0 s s'.
Proof.
  intros E HkI Hall. revert s E HkI.
  induction Hall as [|e members He _ IH]; intros s E HkI; simpl in E.
  - by injection E as <-.
  - apply bind_inv in E as [(e0 & E & ->) | (s1 & [] & E1 & E)].
    + by eapply extract_member_keeps.
    + etrans; [by eapply extract_member_keeps|].
      apply IH; [done|]. eapply resolve_mono; [|done]. by eapply grows_extract_member.
Qed.

(** After a successful extraction every directory member is a directory,
    and every file member holds its content unless a later file member
    has the same name. *)
Lemma extract_members_contents tp members s s' kI :
  extract_members tp members s = (s', inr tt) → resolve s tp = inr kI →
  ∀ i e, members !! i = Some e →
    if zentry_is_dir e then isdir s' (member_path tp e) = true
    else (∀ j e', i < j → members !! j = Some e' → zentry_is_dir e' = false →
                  arcname e' ≠ arcname e) →
         resolve s' (member_path tp e) = inr (kI ++ arcname e)
         ∧ fs s' !! (kI ++ arcname e) = Some (File (data e)).
Proof.
  revert s. induction members as [|e0 members IH]; intros s E HkI i e Hi; [done|].
  simpl in E. apply bind_inv_inr in E as (s1 & [] & E1 & E).
  pose proof (grows_extract_member _ _ _ _ _ E1) as Hg1.
  pose proof (grows_extract_members _ _ _ _ _ E) as Hg.
  destruct i as [|i]; simpl in Hi.
  - injection Hi as ->. destruct (zentry_is_dir e) eqn:He.
    + eapply isdir_mono; [done|]. by eapply extract_member_dir.
    + intros Hlater. destruct (extract_member_file _ _ _ _ _ E1 He HkI) as [Hr Hf].
      split; [by eapply resolve_mono|].
      eapply (extract_members_keeps _ _ _ _ _ kI); [done | by eapply resolve_mono | | done].
      apply Forall_lookup. intros j e' Hj.
      destruct (zentry_is_dir e') eqn:He'; [by left | right].
      intros Heq%app_inv_head. by eapply (Hlater (S j) e'); [lia | | |].
  - specialize (IH s1 E (resolve_mono _ _ _ _ Hg1 HkI) i e Hi).
    destruct (zentry_is_dir e); [done|].
    intros Hlater. apply IH. intros j e' Hj Hj'. apply (Hlater (S j) e'); [lia | done].
Qed.

(** ** The calls of download_data, one by one *)

Lemma called_inv {A} c (body : M state A) s s' r :
  called c body s = (s', r) →
  ∃ s1, body (log c s) = (s1, r)
        ∧ s' = match r with inl e => log (CRaised e) s1 | inr _ => s1 end.
Proof.
  unfold called. intros E. change (try_except body (λ _, true)
    (λ e, modify (log (CRaised e));; raise e) (log c s) = (s', r)) in E.
  unfold try_except in E. destruct (body (log c s)) as [s1 [e|a]] eqn:Eb.
  - injection E as <- <-. by exists s1.
  - injection E as <- <-. by exists s1.
Qed.

Lemma grows_same_fs s s' :
  cwd s' = cwd s → net s' = net s → cpus s' = cpus s → fs s' = fs s → grows s s'.
Proof. intros ? ? ? Hfs. repeat split; try done. by rewrite Hfs. Qed.

Lemma frame_calls s s' : frame s s' → calls s' = calls s.
Proof. by intros (_ & _ & _ & ?). Qed.

(** What a recorded call adds to the record, and that it loses no
    directory, from the same two facts about its body. *)
Lemma called_spec {A} c (body : M state A) s s' r :
  respects frame body → respects grows body →
  called c body s = (s', r) →
  ∃ s1, body (log c s) = (s1, r)
        ∧ calls s' = calls s ++ c :: outcome r ∧ grows s s' ∧ grows s1 s' ∧ fs s' = fs s1.
Proof.
  intros Hf Hg (s1 & Eb & ->)%called_inv. exists s1. split; [done|].
  pose proof (frame_calls _ _ (Hf _ _ _ Eb)) as Hc. pose proof (Hg _ _ _ Eb) as Hg1.
  destruct r as [e|a]; simpl; rewrite ?Hc; simpl; split_and!; try done;
    try (by rewrite <- app_assoc); try (etrans; [exact Hg1|]); apply grows_log.
Qed.

Lemma mkdir_spec p s s' r :
  mkdir p s = (s', r) →
  calls s' = calls s ++ CMkdir p :: outcome r ∧ grows s s'
  ∧ (r = inr tt → isdir s' p = true).
Proof.
  intros (s1 & E & Hc & Hg & Hg1 & _)%called_spec; [|by eauto with run..].
  split_and!; [done..|]. intros ->. apply mkdir_parents_isdir in E.
  rewrite rev_involutive in E. eapply isdir_mono; [done|]. by destruct p.
Qed.

Lemma open_wb_spec p s s' r :
  open_wb p s = (s', r) →
  calls s' = calls s ++ COpen p :: outcome r ∧ grows s s'
  ∧ (∀ f, r = inr f → f.1 = p ∧ resolve s' p = inr f.2 ∧ fs s' !! f.2 = Some (File "")).
Proof.
  intros (s1 & E & Hc & Hg & Hg1 & Hfs)%called_spec; [|by respects_tac..].
  split_and!; [done..|]. intros f ->.
  apply bind_inv_inr in E as (s2 & k & E & [= <- <-]). simpl.
  pose proof (grows_sys_open_wb _ _ _ _ E) as Hg2.
  apply sys_open_wb_spec in E as [_ [(? & ? & _) | (k' & [= <-] & Hr & _ & Hfs2)]]; [done|].
  split_and!; [done | |].
  - eapply resolve_mono; [|exact Hr]. by etrans.
  - rewrite Hfs, Hfs2. apply lookup_insert_eq.
Qed.

Lemma requests_get_spec url s s' r :
  requests_get url s = (s', r) →
  calls s' = calls s ++ CGet url :: outcome r ∧ grows s s' ∧ fs s' = fs s
  ∧ (∀ body, r = inr body → net s url = inr body).
Proof.
  intros (s1 & E & Hc & Hg & Hg1 & Hfs)%called_spec; [|by respects_tac..].
  split_and!; [done..| |].
  - rewrite Hfs. apply bind_inv in E as [(e & E & _) | (s2 & [] & E2 & E)].
    + by apply syscall_spec in E as [_ ->].
    + apply syscall_spec in E2 as [_ Hfs2]. unfold lift in E. by injection E as <- _.
  - intros body ->. apply bind_inv_inr in E as (s2 & [] & E2 & E).
    apply syscall_spec in E2 as [(_ & Hn & _) _]. unfold lift in E.
    injection E as _ E. by rewrite Hn in E.
Qed.

Lemma write_spec f body s s' r :
  write f body s = (s', r) →
  calls s' = calls s ++ CWrite f.1 body :: outcome r ∧ grows s s'
  ∧ (∀ k0, k0 ≠ f.2 → keeps k0 s s')
  ∧ (r = inr tt → is_Some (read_file s f.1) → resolve s f.1 = inr f.2 →
     read_file s' f.1 = Some body).
Proof.
  intros (s1 & E & Hc & Hg & Hg1 & Hfs)%called_spec; [|by respects_tac..].
  split_and!; [done..| |].
  - intros k0 Hk0 v Hv. rewrite Hfs. by eapply (sys_write_keeps _ _ _ (log _ s)).
  - intros -> [old Hold] Hr. unfold read_file in *.
    rewrite (resolve_mono _ _ _ _ Hg Hr), Hfs. rewrite Hr in Hold.
    apply sys_write_spec in E as [_ [(? & ? & _) | (_ & ->)]]; [done|]. simpl.
    destruct (fs s !! f.2) as [[|old']|]; try done. by rewrite lookup_insert_eq.
Qed.

Lemma ZipFile_spec `{Runtime} p s s' r :
  ZipFile p s = (s', r) →
  calls s' = calls s ++ CZipFile p :: outcome r ∧ grows s s' ∧ fs s' = fs s
  ∧ (∀ members, r = inr members →
       ∃ body, read_file s p = Some body ∧ zip_decode body = Some members).
Proof.
  intros (s1 & E & Hc & Hg & Hg1 & Hfs)%called_spec; [|by respects_tac..].
  apply bind_inv in E as [(e & E & ->) | (s2 & [] & E2 & E)].
  { apply syscall_spec in E as [_ Hfs1]. split_and!; try done. by rewrite Hfs. }
  pose proof (syscall_resolve _ _ _ p E2) as Hr.
  apply syscall_spec in E2 as [_ Hfs2].
  assert (s1 = s2) as ->.
  { apply bind_inv in E as [(e & E & _) | (s3 & k & E3 & E)]; unfold lift in *; congruence. }
  split_and!; try done; [by rewrite Hfs|].
  intros members ->. apply bind_inv_inr in E as (s3 & k & E3 & E).
  unfold lift in *. simplify_eq. simpl in *. rewrite Hfs2 in *.
  unfold read_file. change (resolve (log (CZipFile p) s) p) with (resolve s p) in Hr.
  rewrite <- Hr, E3. destruct (is_dir_at (fs s) k); [done|].
  destruct (fs s !! k) as [[|body]|]; try done.
  exists body. split; [done|]. by destruct (zip_decode body); simplify_eq.
Qed.

Lemma extractall_spec members p s s' r :
  extractall members p s = (s', r) →
  calls s' = calls s ++ CExtractAll p :: outcome r ∧ grows s s'
  ∧ ∃ s1, extract_members p members (log (CExtractAll p) s) = (s1, r)
          ∧ grows s1 s' ∧ fs s' = fs s1.
Proof.
  intros (s1 & E & Hc & Hg & Hg1 & Hfs)%called_spec; [|by respects_tac..].
  split_and!; [done..|]. by exists s1.
Qed.

Lemma os_remove_spec p s s' r :
  os_remove p s = (s', r) →
  calls s' = calls s ++ CRemove p :: outcome r ∧ grows s s'
  ∧ (∀ k0, resolve s p ≠ inr k0 → keeps k0 s s')
  ∧ (r = inr tt → exists_ s' p = false ∧ ∃ k, resolve s p = inr k ∧ fs s' = delete k (fs s)).
Proof.
  intros (s1 & E & Hc & Hg & Hg1 & Hfs)%called_spec; [|by respects_tac..].
  split_and!; [done..| |].
  - intros k0 Hk0 v Hv. rewrite Hfs. by eapply (sys_remove_keeps _ _ (log _ s)).
  - intros ->. apply sys_remove_spec in E as [_ [(? & ? & _) | (k & _ & Hr & Hd & _ & Hfs1)]];
      [done|].
    split; [|exists k; split; [done | by rewrite Hfs, Hfs1]].
    unfold exists_. rewrite (resolve_mono _ _ _ _ Hg Hr), Hfs, Hfs1.
    destruct (exists_at (delete k (fs (log (CRemove p) s))) k) eqn:Ex; [|done].
    apply exists_at_lookup in Ex as [-> | [v Hv]]; [done | by rewrite lookup_delete_eq in Hv].
Qed.

Lemma isdir_ext s s' p : fs s' = fs s → cwd s' = cwd s → isdir s' p = isdir s p.
Proof. intros Hfs Hc. unfold isdir. by rewrite (resolve_ext s s'), Hfs by done. Qed.

Lemma is_dir_spec p s s' r :
  is_dir p s = (s', r) →
  calls s' = calls s ++ CIsDir p :: outcome r ∧ grows s s'
  ∧ fs s' = fs s ∧ cwd s' = cwd s ∧ net s' = net s ∧ faults s' = tail (faults s)
  ∧ r = match next_fault s with
        | None => inr (isdir s p)
        | Some e => if is_dir_ignores e then inr false else inl e
        end.
Proof.
  intros E. pose proof E as (s1 & Eb & ->)%called_inv.
  apply called_spec in E as (s1' & Eb' & Hc & Hg & _ & _);
    [|eapply respects_mono; [apply adds_frame | apply respects_stat_is_dir]
     |eapply respects_mono; [apply adds_grows | apply respects_stat_is_dir]].
  apply stat_is_dir_spec in Eb as ([(Hcwd & Hnet & _) _] & Hfs & Hfa & Hr).
  split_and!; try done; by destruct r.
Qed.

(** The test of [download_data] answers False on a path that is no
    directory, unless the stat raises. *)
Lemma is_dir_false {A} p (k : bool → M state A) s s' a :
  isdir s p = false → (is_dir p ≫= k) s = (s', inr a) →
  ∃ s0, is_dir p s = (s0, inr false) ∧ k false s0 = (s', inr a).
Proof.
  intros Hd (s0 & d & Ei & E)%bind_inv_inr. exists s0.
  assert (d = false) as ->; [|done].
  apply is_dir_spec in Ei as (_ & _ & _ & _ & _ & _ & Hr). rewrite Hd in Hr.
  destruct (next_fault s) as [e|]; [|congruence].
  destruct (is_dir_ignores e); congruence.
Qed.

(** ** download_data: the download path *)

(** A successful run on a missing directory, step by step. *)
Lemma download_data_fresh_inv `{Runtime} source destination remove_source s s' p :
  isdir s (image_path destination) = false →
  download_data source destination remove_source s = (s', inr p) →
  ∃ l1 l2 l3 s0 s1 s2 s3 s4 s5 s6 f body members,
    p = image_path destination
    ∧ l1 = "[INFO] Did not find " +:+ Path.to_string (image_path destination)
           +:+ " directory, creating one..."
    ∧ l2 = "[INFO] Downloading " +:+ Path.name (Path.of_string source) +:+ " from "
           +:+ source +:+ "..."
    ∧ l3 = "[INFO] Unzipping " +:+ Path.name (Path.of_string source) +:+ " data..."
    ∧ is_dir (image_path destination) s = (s0, inr false)
    ∧ mkdir (image_path destination) (log (CPrint l1) s0) = (s1, inr tt)
    ∧ open_wb (archive_path source) s1 = (s2, inr f)
    ∧ requests_get source s2 = (s3, inr body)
    ∧ write f body (log (CPrint l2) s3) = (s4, inr tt)
    ∧ ZipFile (archive_path source) s4 = (s5, inr members)
    ∧ extractall members (image_path destination) (log (CPrint l3) s5) = (s6, inr tt)
    ∧ (if remove_source then os_remove (archive_path source) else mret tt) s6 = (s', inr tt).
Proof.
  intros Hd E. unfold download_data in E.
  fold data_path in E. fold (image_path destination) in E. fold (archive_path source) in E.
  apply is_dir_false in E as (s0 & Ei & E); [|done]. cbv iota in E.
  apply bind_inv_inr in E as (s7 & [] & E & Eret). injection Eret as <- <-.
  apply bind_inv_inr in E as (s0' & [] & Ep & E). injection Ep as <-.
  apply bind_inv_inr in E as (s1 & [] & Em & E).
  apply bind_inv_inr in E as (s4 & [] & Ef & E).
  apply bind_inv_inr in Ef as (s2 & f & Eo & Ef).
  apply bind_inv_inr in Ef as (s3 & body & Eg & Ef).
  apply bind_inv_inr in Ef as (s3' & [] & Ep & Ew). injection Ep as <-.
  apply bind_inv_inr in E as (s6 & [] & Ez & E).
  apply bind_inv_inr in Ez as (s5 & members & Ez & Ex).
  apply bind_inv_inr in Ex as (s5' & [] & Ep & Ex). injection Ep as <-.
  by eexists _, _, _, s0, s1, s2, s3, s4, s5, s6, f, body, members.
Qed.

Lemma isdir_resolve s p : isdir s p = true → ∃ k, resolve s p = inr k.
Proof. unfold isdir. destruct (resolve s p) as [|k]; [done | by exists k]. Qed.

(** What a successful run on a missing directory has done. *)
Lemma download_data_fresh_run `{Runtime} (source destination : string) (remove_source : bool)
    (s s' : state) (p : path) :
  isdir s (image_path destination) = false →
  download_data source destination remove_source s = (s', inr p) →
  ∃ body members l1 l2 l3,
    p = image_path destination
    ∧ net s source = inr body
    ∧ zip_decode body = Some members
    ∧ calls s' = calls s
                 ++ [CIsDir (image_path destination);
                     CPrint l1; CMkdir (image_path destination);
                     COpen (archive_path source); CGet source; CPrint l2;
                     CWrite (archive_path source) body;
                     CZipFile (archive_path source); CPrint l3;
                     CExtractAll (image_path destination)]
                 ++ (if remove_source then [CRemove (archive_path source)] else [])
    ∧ isdir s' (image_path destination) = true
    ∧ (remove_source = true → exists_ s' (archive_path source) = false)
    ∧ (∀ i e, members !! i = Some e →
         (remove_source = true →
          resolve s' (member_path (image_path destination) e)
          ≠ resolve s' (archive_path source)) →
         member_present s' (image_path destination) members i e).
Proof.
  intros Hd E.
  apply download_data_fresh_inv in E
    as (l1 & l2 & l3 & s0 & s1 & s2 & s3 & s4 & s5 & s6 & f & body & members
        & -> & _ & _ & _ & Ei & Em & Eo & Eg & Ew & Ez & Ex & Er); [|done].
  apply is_dir_spec in Ei as (Ci & Gi & _ & _ & Ni & _).
  apply mkdir_spec in Em as (Cm & Gm & Dm). specialize (Dm eq_refl).
  apply open_wb_spec in Eo as (Co & Go & Po). destruct (Po f eq_refl) as (Hf1 & Hf2 & Hf3).
  apply requests_get_spec in Eg as (Cg & Gg & Fg & Ng). specialize (Ng body eq_refl).
  apply write_spec in Ew as (Cw & Gw & _ & Pw).
  apply ZipFile_spec in Ez as (Cz & Gz & Fz & Pz).
  destruct (Pz members eq_refl) as (body' & Hread & Hdec).
  apply extractall_spec in Ex as (Cx & Gx & sx & Ex & Gx1 & Fx).
  assert (grows (log (CPrint l1) s0) s6) as G16.
  { etrans; [done|]. etrans; [done|]. etrans; [done|].
    etrans; [exact Gw|]. etrans; [exact Gz|]. exact Gx. }
  assert (read_file s4 (archive_path source) = Some body) as Hread4.
  { rewrite Hf1 in Pw. apply Pw; [done | |].
    - unfold read_file. simpl.
      rewrite (resolve_ext s2 (log (CPrint l2) s3)) by (first [exact Fg | apply Gg]).
      by rewrite Hf2, Fg, Hf3.
    - rewrite (resolve_ext s2 (log (CPrint l2) s3)) by (first [exact Fg | apply Gg]).
      done. }
  assert (body' = body) as -> by congruence.
  destruct (isdir_resolve _ _ Dm) as [kI HkI].
  assert (resolve (log (CPrint l3) s5) (image_path destination) = inr kI) as HkI5.
  { eapply (resolve_mono s1); [|done].
    etrans; [done|]. etrans; [done|]. etrans; [exact Gw|]. exact Gz. }
  assert (grows s6 s' ∧ calls s' = calls s6
                                   ++ (if remove_source then [CRemove (archive_path source)] else [])
          ∧ (remove_source = true → exists_ s' (archive_path source) = false)
          ∧ (∀ k0, (remove_source = true → resolve s6 (archive_path source) ≠ inr k0) →
                   keeps k0 s6 s')) as (Gr & Cr & Xr & Kr).
  { destruct remove_source.
    - apply os_remove_spec in Er as (? & ? & Hk & Hx). split_and!; try done.
      + intros _. by apply Hx.
      + intros k0 Hk0. by apply Hk, Hk0.
    - injection Er as <-. split_and!; try done. by rewrite app_nil_r. }
  exists body, members, l1, l2, l3. split_and!.
  - done.
  - destruct Gm as (_ & Hn1 & _), Go as (_ & Hn2 & _).
    rewrite <- Ng, Hn2, Hn1. simpl. by rewrite Ni.
  - done.
  - rewrite Cr, Cx. simpl. rewrite Cz, Cw, Hf1. simpl. rewrite Cg, Co, Cm. simpl.
    rewrite Ci. simpl. by rewrite <- !app_assoc.
  - eapply isdir_mono; [|exact Dm]. etrans; [|exact Gr].
    etrans; [done|]. etrans; [done|]. etrans; [exact Gw|]. etrans; [exact Gz|]. exact Gx.
  - done.
  - intros i e Hi Hne.
    assert (resolve (log (CExtractAll (image_path destination)) (log (CPrint l3) s5))
              (image_path destination) = inr kI) as HkI5' by done.
    pose proof (extract_members_contents _ _ _ _ _ Ex HkI5' i e Hi) as Hc.
    unfold member_present. destruct (zentry_is_dir e).
    + eapply isdir_mono; [|exact Hc]. by etrans.
    + intros Hlater. destruct (Hc Hlater) as [Hr Hf].
      apply (resolve_mono _ _ _ _ Gx1) in Hr. rewrite <- Fx in Hf.
      unfold read_file. rewrite (resolve_mono _ _ _ _ Gr Hr).
      assert (fs s' !! (kI ++ arcname e) = Some (File (data e))) as ->; [|done].
      apply (Kr (kI ++ arcname e)); [|done].
      intros Hrm Ha. apply (Hne Hrm).
      by rewrite (resolve_mono _ _ _ _ Gr Hr), (resolve_mono _ _ _ _ Gr Ha).
Qed.

(** ** download_data: the skip path *)



(** What the test answers, by the fault its stat meets. *)
Lemma is_dir_run p s :
  ∃ s0, is_dir p s = (s0, match next_fault s with
                          | None => inr (isdir s p)
                          | Some e => if is_dir_ignores e then inr false else inl e
                          end).
Proof.
  destruct (is_dir p s) as [s0 r] eqn:E. exists s0. f_equal.
  by apply is_dir_spec in E as (_ & _ & _ & _ & _ & _ & ->).
Qed.





(** C2 (amended). On a missing directory a successful [download_data]
    makes exactly these calls in this order: the test of the directory,
    the directory with its parents, the file data/<name of source> opened for writing, the GET of
    [source], the write of the whole response body to that file, the
    archive opened and extracted into the directory, and the removal of the
    archive exactly when [remove_source] is true. Afterwards the directory
    exists, the archive is gone when [remove_source] is true, the path is
    returned, and every member of the archive is in place, except, when
    [remove_source] is true, a member that was extracted to the location of
    the archive file itself. *)
Theorem download_data_fresh `{Runtime} (source destination : string) (remove_source : bool)
    (s s' : state) (p : path) :
  isdir s (image_path destination) = false →
  download_data source destination remove_source s = (s', inr p) →
  ∃ body members l1 l2 l3,
    p = image_path destination
    ∧ net s source = inr body
    ∧ zip_decode body = Some members
    ∧ calls s' = calls s
                 ++ [CIsDir (image_path destination);
                     CPrint l1; CMkdir (image_path destination);
                     COpen (archive_path source); CGet source; CPrint l2;
                     CWrite (archive_path source) body;
                     CZipFile (archive_path source); CPrint l3;
                     CExtractAll (image_path destination)]
                 ++ (if remove_source then [CRemove (archive_path source)] else [])
    ∧ isdir s' (image_path destination) = true
    ∧ (remove_source = true → exists_ s' (archive_path source) = false)
    ∧ (∀ i e, members !! i = Some e →
         (remove_source = true →
          resolve s' (member_path (image_path destination) e)
          ≠ resolve s' (archive_path source)) →
         member_present s' (image_path destination) members i e).
Proof. apply download_data_fresh_run. Qed.

Lemma run_eq {St A} (m : M St A) (s : St) (r : exn + A) :
  (m s).2 = r → m s = ((m s).1, r).
Proof. destruct (m s) as [s' r']. simpl. by intros ->. Qed.

(** Settles [m s = (s', r)] for a concrete run by evaluating its result,
    [s'] being the state of that run. *)
Ltac by_running :=
  match goal with
  | |- ?m ?s = (_, ?r) => exact (run_eq m s r ltac:(vm_compute; reflexivity))
  end.

Lemma download_data_fresh_witness :
  let source := "https://example.com/data/food.zip" in
  let s' := (download_data (H := toy_runtime) source "food" true fresh_machine).1 in
  isdir fresh_machine (image_path "food") = false
  ∧ download_data (H := toy_runtime) source "food" true fresh_machine
    = (s', inr (image_path "food"))
  ∧ ∃ body members l1 l2 l3,
      image_path "food" = image_path "food"
      ∧ net fresh_machine source = inr body
      ∧ zip_decode (Runtime := toy_runtime) body = Some members
      ∧ calls s' = calls fresh_machine
                   ++ [CIsDir (image_path "food");
                       CPrint l1; CMkdir (image_path "food");
                       COpen (archive_path source); CGet source; CPrint l2;
                       CWrite (archive_path source) body;
                       CZipFile (archive_path source); CPrint l3;
                       CExtractAll (image_path "food")]
                   ++ [CRemove (archive_path source)]
      ∧ isdir s' (image_path "food") = true
      ∧ (true = true → exists_ s' (archive_path source) = false)
      ∧ (∀ i e, members !! i = Some e →
           (true = true →
            resolve s' (member_path (image_path "food") e) ≠ resolve s' (archive_path source)) →
           member_present s' (image_path "food") members i e).
Proof.
  intros source s'.
  assert (download_data (H := toy_runtime) source "food" true fresh_machine
          = (s', inr (image_path "food"))) as Hrun.
  { by_running. }
  split; [reflexivity|]. split; [exact Hrun|].
  exact (download_data_fresh (H := toy_runtime) source "food" true fresh_machine s'
           (image_path "food") eq_refl Hrun).
Defined.

(** C2, as stated, fails: on a machine without data/, the empty
    destination makes data/ itself the destination; the archive a.zip holds
    one empty member called a.zip, which is extracted onto the archive file
    and removed with it, so the directory does not hold what was
    extracted. *)
Lemma download_data_fresh_member_removed :
  ¬ (∀ (H : Runtime) (source destination : string) (remove_source : bool)
       (s s' : state) (p : path) (body : bytes) (members : list zentry),
       isdir s (image_path destination) = false →
       download_data source destination remove_source s = (s', inr p) →
       net s source = inr body →
       zip_decode body = Some members →
       isdir s' (image_path destination) = true
       ∧ (remove_source = true → exists_ s' (archive_path source) = false)
       ∧ ∀ i e, members !! i = Some e →
                member_present s' (image_path destination) members i e).
Proof.
  intros Hclaim.
  pose (source := "https://example.com/a.zip").
  pose (s' := (download_data (H := toy_runtime) source "" true fresh_machine).1).
  assert (download_data (H := toy_runtime) source "" true fresh_machine
          = (s', inr (image_path ""))) as Hrun.
  { by_running. }
  destruct (Hclaim toy_runtime source "" true fresh_machine s' (image_path "") "PK-self"
              [ {| filename := "a.zip"; data := "" |} ] eq_refl Hrun eq_refl eq_refl)
    as (_ & _ & Hmembers).
  specialize (Hmembers 0 _ eq_refl). unfold member_present in Hmembers. simpl in Hmembers.
  assert (read_file s' (member_path (image_path "") {| filename := "a.zip"; data := "" |})
          = None) as Hgone by (vm_compute; reflexivity).
  rewrite Hgone in Hmembers.
  assert (None = Some "") as Habs; [|discriminate Habs].
  apply Hmembers. intros [|j] e' Hj Hl; [lia | by destruct j].
Qed.

(** ** download_data: failures and the archive file *)

#[local] Instance stays_refl : Reflexive stays.
Proof. intros s k body Hk. by exists body. Qed.

#[local] Instance stays_trans : Transitive stays.
Proof. intros s1 s2 s3 H12 H23 k body Hk. apply H12 in Hk as [body' Hk]. by eapply H23. Qed.

Lemma adds_stays s s' : adds s s' → stays s s'.
Proof. intros [_ Hsub] k body Hk. exists body. by eapply lookup_weaken. Qed.

Lemma stays_same_fs (s s' : state) : fs s' = fs s → stays s s'.
Proof. intros Hfs k body Hk. exists body. by rewrite Hfs. Qed.

Lemma stays_insert_File (s s' : state) k body :
  fs s' = <[k := File body]> (fs s) → stays s s'.
Proof.
  intros Hfs k' body' Hk'. rewrite Hfs. destruct (decide (k = k')) as [-> | Hne].
  - exists body. apply lookup_insert_eq.
  - exists body'. by rewrite lookup_insert_ne.
Qed.

Lemma stays_syscall : respects stays syscall.
Proof. eapply respects_mono; [apply adds_stays | apply respects_syscall_adds]. Qed.

Lemma stays_os_mkdir p : respects stays (os_mkdir p).
Proof. eapply respects_mono; [apply adds_stays | apply respects_os_mkdir]. Qed.

Lemma stays_makedirs root rparts : respects stays (makedirs root rparts).
Proof. eapply respects_mono; [apply adds_stays | apply respects_makedirs]. Qed.

Lemma stays_sys_open_wb p : respects stays (sys_open_wb p).
Proof.
  intros s s' r [_ [(e & _ & Hfs) | (k & _ & _ & _ & Hfs)]]%sys_open_wb_spec.
  - by apply stays_same_fs.
  - by eapply stays_insert_File.
Qed.

Lemma stays_sys_write k body : respects stays (sys_write k body).
Proof.
  intros s s' r [_ [(e & _ & Hfs) | (_ & Hfs)]]%sys_write_spec.
  - by apply stays_same_fs.
  - destruct (fs s !! k) as [[|old]|]; try by apply stays_same_fs.
    by eapply stays_insert_File.
Qed.

#[local] Hint Resolve stays_syscall stays_os_mkdir stays_makedirs stays_sys_open_wb
  stays_sys_write : run.

Lemma stays_extract_members tp members : respects stays (extract_members tp members).
Proof.
  induction members; simpl; [respects_tac|].
  unfold extract_member, os_path_isdir, path_exists. respects_tac.
Qed.

Lemma bind_assoc {St A B C} (m : M St A) (k : A → M St B) (k' : B → M St C) s :
  ((m ≫= k) ≫= k') s = (m ≫= (λ a, k a ≫= k')) s.
Proof. unfold mbind, M_bind. by destruct (m s) as [s1 [e|a]]. Qed.

(** From the steps of a run back to the run. *)
Lemma download_data_fresh_steps `{Runtime} source destination remove_source
    s l1 l2 l3 s0 s1 s2 s3 s4 s5 s6 f body members :
  is_dir (image_path destination) s = (s0, inr false) →
  l1 = "[INFO] Did not find " +:+ Path.to_string (image_path destination)
       +:+ " directory, creating one..." →
  l2 = "[INFO] Downloading " +:+ Path.name (Path.of_string source) +:+ " from "
       +:+ source +:+ "..." →
  l3 = "[INFO] Unzipping " +:+ Path.name (Path.of_string source) +:+ " data..." →
  mkdir (image_path destination) (log (CPrint l1) s0) = (s1, inr tt) →
  open_wb (archive_path source) s1 = (s2, inr f) →
  requests_get source s2 = (s3, inr body) →
  write f body (log (CPrint l2) s3) = (s4, inr tt) →
  ZipFile (archive_path source) s4 = (s5, inr members) →
  extractall members (image_path destination) (log (CPrint l3) s5) = (s6, inr tt) →
  download_data source destination remove_source s
  = ((if remove_source then os_remove (archive_path source) else mret tt)
     ≫= λ _, mret (image_path destination)) s6.
Proof.
  intros Ei -> -> -> Em Eo Eg Ew Ez Ex. unfold download_data.
  fold data_path. fold (image_path destination). fold (archive_path source).
  erewrite bind_inr by exact Ei.
  cbv iota.
  rewrite bind_assoc. erewrite bind_inr; last by reflexivity.
  rewrite bind_assoc. erewrite bind_inr; last by exact Em.
  rewrite !bind_assoc. erewrite bind_inr; last by exact Eo.
  rewrite !bind_assoc. erewrite bind_inr; last by exact Eg.
  rewrite !bind_assoc. erewrite bind_inr; last by reflexivity.
  erewrite bind_inr; last by exact Ew.
  rewrite !bind_assoc. erewrite bind_inr; last by exact Ez.
  rewrite !bind_assoc. erewrite bind_inr; last by reflexivity.
  erewrite bind_inr; last by exact Ex.
  reflexivity.
Qed.

(** After the [with open(...)] block the archive file holds the body. *)
Lemma archive_written a s1 s2 s3 s4 f body l :
  open_wb a s1 = (s2, inr f) →
  fs s3 = fs s2 → cwd s3 = cwd s2 →
  write f body (log (CPrint l) s3) = (s4, inr tt) →
  read_file s4 a = Some body.
Proof.
  intros Eo Fg Cg Ew.
  apply open_wb_spec in Eo as (_ & _ & Po). destruct (Po f eq_refl) as (Hf1 & Hf2 & Hf3).
  apply write_spec in Ew as (_ & _ & _ & Pw). rewrite Hf1 in Pw. apply Pw; [done | |].
  - unfold read_file. simpl. rewrite (resolve_ext s2 (log (CPrint l) s3)) by done.
    by rewrite Hf2, Fg, Hf3.
  - by rewrite (resolve_ext s2 (log (CPrint l) s3)).
Qed.

Lemma read_file_stays s s' p :
  grows s s' → stays s s' → is_Some (read_file s p) → is_Some (read_file s' p).
Proof.
  intros Hg Hs. unfold read_file. destruct (resolve s p) as [|k] eqn:Hr; [by intros [? ?]|].
  rewrite (resolve_mono _ _ _ _ Hg Hr).
  destruct (fs s !! k) as [[|body]|] eqn:Hk; try by intros [? ?].
  intros _. apply Hs in Hk as [body' ->]. by eexists.
Qed.

(** Where the file members of an archive are once it is extracted. *)
Lemma extract_members_resolve tp members s s' kI :
  extract_members tp members s = (s', inr tt) → resolve s tp = inr kI →
  ∀ e, e ∈ members → zentry_is_dir e = false →
    resolve s' (member_path tp e) = inr (kI ++ arcname e).
Proof.
  revert s. induction members as [|e0 members IH]; intros s E HkI e Hin He.
  { by apply elem_of_nil in Hin. }
  simpl in E. apply bind_inv_inr in E as (s1 & [] & E1 & E).
  pose proof (grows_extract_member _ _ _ _ _ E1) as Hg1.
  pose proof (grows_extract_members _ _ _ _ _ E) as Hg.
  apply elem_of_cons in Hin as [-> | Hin].
  - destruct (extract_member_file _ _ _ _ _ E1 He HkI) as [Hr _].
    by eapply resolve_mono.
  - apply (IH s1); try done. by eapply resolve_mono.
Qed.

(** C10 (amended). When [download_data] succeeds on a missing directory
    with [remove_source] false, the file data/<name of source> is still a
    file on disk and no removal is among the calls. It holds the response
    that was downloaded, unless a file member of the archive was extracted
    to the location of the archive file itself. The run with
    [remove_source] true is this same run followed by the removal of the
    archive, so when it succeeds too it returns the same path and its file
    system is the one of this run without the archive file. *)
Theorem download_data_keeps_source `{Runtime} (source destination : string)
    (s sF : state) (p : path) :
  isdir s (image_path destination) = false →
  download_data source destination false s = (sF, inr p) →
  (∃ body members,
     net s source = inr body ∧ zip_decode body = Some members
     ∧ ((∀ e, e ∈ members → zentry_is_dir e = false →
              resolve sF (member_path (image_path destination) e)
              ≠ resolve sF (archive_path source)) →
        read_file sF (archive_path source) = Some body))
  ∧ is_Some (read_file sF (archive_path source))
  ∧ (∀ q, CRemove q ∉ drop (length (calls s)) (calls sF))
  ∧ download_data source destination true s
    = (os_remove (archive_path source) ≫= λ _, mret p) sF
  ∧ ∀ sT pT, download_data source destination true s = (sT, inr pT) →
      pT = p
      ∧ calls sT = calls sF ++ [CRemove (archive_path source)]
      ∧ ∃ k, resolve sF (archive_path source) = inr k ∧ fs sT = delete k (fs sF).
Proof.
  intros Hd EF.
  destruct (download_data_fresh_run _ _ _ _ _ _ Hd EF)
    as (body0 & members0 & l1' & l2' & l3' & _ & Hnet & Hdec & Hcalls & _).
  apply download_data_fresh_inv in EF
    as (l1 & l2 & l3 & s0 & s1 & s2 & s3 & s4 & s5 & s6 & f & body & members
        & -> & Hl1 & Hl2 & Hl3 & Ei & Em & Eo & Eg & Ew & Ez & Ex & Er); [|done].
  injection Er as <-.
  pose proof (download_data_fresh_steps source destination true s _ _ _ _ _ _ _ _ _ _ _ _ _
                Ei Hl1 Hl2 Hl3 Em Eo Eg Ew Ez Ex) as ET.
  pose proof (requests_get_spec _ _ _ _ Eg) as (_ & Gg & Fg & Ng).
  pose proof (archive_written _ _ _ _ _ _ _ _ Eo Fg (proj1 Gg) Ew) as Hread.
  pose proof (mkdir_spec _ _ _ _ Em) as (_ & _ & Dm). specialize (Dm eq_refl).
  pose proof (open_wb_spec _ _ _ _ Eo) as (_ & Go & _).
  pose proof (write_spec _ _ _ _ _ Ew) as (_ & Gw & _).
  pose proof (ZipFile_spec _ _ _ _ Ez) as (_ & Gz & Fz & Pz).
  destruct (Pz members eq_refl) as (body' & Hread' & Hdec').
  assert (body' = body) as -> by congruence.
  pose proof (extractall_spec _ _ _ _ _ Ex) as (_ & Gx & sx & Exm & Gx1 & Fx).
  split_and!.
  - exists body, members. split_and!.
    + apply is_dir_spec in Ei as (_ & _ & _ & _ & Ni & _).
      apply mkdir_spec in Em as (_ & (_ & Hn1 & _) & _).
      destruct Go as (_ & Hn2 & _).
      rewrite <- (Ng body eq_refl), Hn2, Hn1. simpl. by rewrite Ni.
    + done.
    + intros Hne.
      destruct (isdir_resolve _ _ Dm) as [kI HkI].
      assert (resolve (log (CExtractAll (image_path destination))
                         (log (CPrint l3) s5)) (image_path destination) = inr kI) as HkI5.
      { eapply (resolve_mono s1); [|done].
        etrans; [exact Go|]. etrans; [exact Gg|]. etrans; [apply grows_log|].
        etrans; [exact Gw|]. etrans; [exact Gz|]. etrans; apply grows_log. }
      unfold read_file in Hread |- *.
      destruct (resolve s4 (archive_path source)) as [|kA] eqn:HkA; [done|].
      assert (grows s4 s6) as G46 by (etrans; [exact Gz|]; etrans; [apply grows_log|]; done).
      rewrite (resolve_mono _ _ _ _ G46 HkA).
      destruct (fs s4 !! kA) as [[|b]|] eqn:Hb; try done. injection Hread as ->.
      assert (fs s6 !! kA = Some (File body)) as ->; [|done].
      rewrite Fx.
      eapply (extract_members_keeps _ _ _ _ _ kI kA Exm); [exact HkI5 | |].
      * apply Forall_forall. intros e Hin.
        destruct (zentry_is_dir e) eqn:He; [by left | right].
        intros ->. apply (Hne e Hin He).
        rewrite (resolve_mono _ _ _ _ G46 HkA).
        apply (resolve_mono _ _ _ _ Gx1).
        by eapply extract_members_resolve.
      * simpl. by rewrite Fz.
  - eapply (read_file_stays s4); [| |by rewrite Hread].
    + etrans; [exact Gz|]. exact Gx.
    + etrans; [by apply stays_same_fs|].
      etrans; [|by apply stays_same_fs].
      etrans; [|by eapply stays_extract_members]. by apply stays_same_fs.
  - intros q. rewrite Hcalls, app_nil_r, drop_app_length.
    intros Hin. repeat (apply elem_of_cons in Hin as [? | Hin]; [done|]).
    by apply elem_of_nil in Hin.
  - exact ET.
  - intros sT pT E. rewrite ET in E.
    apply bind_inv_inr in E as (sT' & [] & Er & [= <- <-]).
    apply os_remove_spec in Er as (Cr & _ & _ & Pr).
    destruct (Pr eq_refl) as (_ & k & Hk & Hfs). split_and!; [done..|]. by exists k.
Qed.

Lemma download_data_keeps_source_witness :
  let source := "https://example.com/data/food.zip" in
  let sF := (download_data (H := toy_runtime) source "food" false fresh_machine).1 in
  isdir fresh_machine (image_path "food") = false
  ∧ download_data (H := toy_runtime) source "food" false fresh_machine
    = (sF, inr (image_path "food"))
  ∧ read_file sF (archive_path source) = Some "PK-food"
  ∧ (∃ body members,
       net fresh_machine source = inr body
       ∧ zip_decode (Runtime := toy_runtime) body = Some members
       ∧ ((∀ e, e ∈ members → zentry_is_dir e = false →
                resolve sF (member_path (image_path "food") e)
                ≠ resolve sF (archive_path source)) →
          read_file sF (archive_path source) = Some body))
  ∧ is_Some (read_file sF (archive_path source))
  ∧ (∀ q, CRemove q ∉ drop (length (calls fresh_machine)) (calls sF))
  ∧ download_data (H := toy_runtime) source "food" true fresh_machine
    = (os_remove (archive_path source) ≫= λ _, mret (image_path "food")) sF
  ∧ ∀ sT pT, download_data (H := toy_runtime) source "food" true fresh_machine = (sT, inr pT) →
      pT = image_path "food"
      ∧ calls sT = calls sF ++ [CRemove (archive_path source)]
      ∧ ∃ k, resolve sF (archive_path source) = inr k ∧ fs sT = delete k (fs sF).
Proof.
  intros source sF.
  assert (download_data (H := toy_runtime) source "food" false fresh_machine
          = (sF, inr (image_path "food"))) as Hrun.
  { by_running. }
  split; [reflexivity|]. split; [exact Hrun|]. split; [by vm_compute|].
  exact (download_data_keeps_source (H := toy_runtime) source "food" fresh_machine sF
           (image_path "food") eq_refl Hrun).
Defined.

(** C10, as stated, fails: with the empty destination data/ itself is the
    directory, and the archive a.zip holds one empty member called a.zip,
    which is extracted onto the archive file: what is left on disk under
    that name is the member, not the archive that was downloaded. *)
Lemma download_data_keeps_source_overwritten :
  ¬ (∀ (H : Runtime) (source destination : string) (s sF : state) (p : path) (body : bytes),
       isdir s (image_path destination) = false →
       download_data source destination false s = (sF, inr p) →
       net s source = inr body →
       read_file sF (archive_path source) = Some body).
Proof.
  intros Hclaim.
  set (source := "https://example.com/a.zip").
  set (sF := (download_data (H := toy_runtime) source "" false fresh_machine).1).
  assert (download_data (H := toy_runtime) source "" false fresh_machine
          = (sF, inr (image_path ""))) as Hrun by by_running.
  specialize (Hclaim toy_runtime source "" fresh_machine sF (image_path "") "PK-self"
                eq_refl Hrun eq_refl).
  assert (read_file sF (archive_path source) = Some "") as Hleft by (by vm_compute).
  rewrite Hleft in Hclaim. discriminate Hclaim.
Qed.





(** ** create_dataloaders *)

Lemma entry_name_spec k k' n : entry_name k k' = Some n ↔ k' = k ++ [n].
Proof.
  unfold entry_name. split.
  - destruct (drop (length k) k') as [|n' [|? ?]] eqn:Hd; try done.
    case_decide as Ht; [|done]. intros [= ->].
    by rewrite <- (take_drop (length k) k'), Ht, Hd.
  - intros ->. rewrite drop_app_length, take_app_length. by rewrite decide_True.
Qed.

Lemma elem_of_scandir_dirs m k n :
  n ∈ scandir_dirs m k ↔ m !! (k ++ [n]) = Some Dir.
Proof.
  unfold scandir_dirs. rewrite list_elem_of_omap. split.
  - intros ([k' v] & Hin%elem_of_map_to_list & Hn). simpl in Hn.
    destruct v; [|done]. apply entry_name_spec in Hn as ->. done.
  - intros Hk. exists (k ++ [n], Dir). split; [by apply elem_of_map_to_list|].
    simpl. by apply entry_name_spec.
Qed.

Lemma NoDup_scandir_dirs m k : NoDup (scandir_dirs m k).
Proof.
  unfold scandir_dirs.
  pose proof (NoDup_fst_map_to_list m) as Hnd.
  induction (map_to_list m) as [|[k' v] l IH]; simpl; [constructor|].
  apply NoDup_cons in Hnd as [Hk' Hnd]. specialize (IH Hnd).
  destruct v; simpl; [|done].
  destruct (entry_name k k') as [n|] eqn:Hn; simpl; [|done].
  apply NoDup_cons. split; [|done].
  intros ([k'' v''] & Hin & Hn'')%list_elem_of_omap. simpl in *.
  destruct v''; [|done]. apply entry_name_spec in Hn as ->.
  apply entry_name_spec in Hn'' as ->. apply Hk'.
  apply list_elem_of_fmap. by exists (k ++ [n], Dir).
Qed.

#[local] Instance str_le_total : Total str_le.
Proof. intros a b. apply String.leb_total. Qed.

(** What [find_classes] returns: the names of the directories directly
    inside [directory], sorted; the state is not touched. *)
Lemma find_classes_spec directory s s' r :
  find_classes directory s = (s', r) →
  s' = s
  ∧ ∀ cs, r = inr cs →
      ∃ k, resolve s (Path.of_string directory) = inr k
           ∧ is_dir_at (fs s) k = true
           ∧ cs = merge_sort str_le (scandir_dirs (fs s) k) ∧ cs ≠ [].
Proof.
  unfold find_classes. intros E.
  apply bind_inv in E as [(e & E & ->) | (s0 & [] & E0 & E)].
  { case_decide; unfold_M; by simplify_eq. }
  assert (s0 = s) as -> by (case_decide; unfold_M; by simplify_eq).
  apply bind_inv in E as [(e & E & ->) | (s0 & k & E1 & E)].
  { unfold lift in E. by simplify_eq. }
  clear E0. unfold lift in E1, E. injection E1 as <- E1. injection E as <- E.
  split; [done|]. intros cs ->. exists k.
  destruct (is_dir_at (fs s) k); [|by destruct (exists_at (fs s) k)].
  destruct (merge_sort str_le (scandir_dirs (fs s) k)) as [|c cs'] eqn:Hs; [done|].
  by injection E as <-.
Qed.

Lemma called_state_inv {A} c (body : M state A) s s' r :
  (∀ s0 s1 r0, body s0 = (s1, r0) → s1 = s0) →
  called c body s = (s', r) →
  body (log c s) = (log c s, r)
  ∧ fs s' = fs s ∧ cwd s' = cwd s ∧ cpus s' = cpus s ∧ faults s' = faults s
  ∧ calls s' = calls s ++ c :: outcome r.
Proof.
  intros Hb (s1 & E & ->)%called_inv. pose proof (Hb _ _ _ E) as ->.
  split; [done|]. destruct r; simpl; by rewrite <- ?app_assoc.
Qed.

Lemma ImageFolder_init_spec `{Runtime} {T} root (tf : T) s s' r :
  ImageFolder_init root tf s = (s', r) →
  fs s' = fs s ∧ cwd s' = cwd s ∧ cpus s' = cpus s ∧ faults s' = faults s
  ∧ calls s' = calls s ++ CImageFolder root :: outcome r
  ∧ ∀ d, r = inr d →
      transform d = tf
      ∧ ∃ k, resolve s (Path.of_string (expanduser root)) = inr k
             ∧ is_dir_at (fs s) k = true
             ∧ classes d = merge_sort str_le (scandir_dirs (fs s) k)
             ∧ classes d ≠ []
             ∧ make_dataset (fs s) k (classes d) = inr (samples d).
Proof.
  intros E. apply called_state_inv in E as (E & Hrest).
  - destruct Hrest as (? & ? & ? & ? & ?). split_and!; try done. intros d ->.
    apply bind_inv_inr in E as (s1 & cs & Ec & E).
    apply find_classes_spec in Ec as [-> Hcs].
    destruct (Hcs cs eq_refl) as (k & Hk & Hd & -> & Hne).
    apply bind_inv_inr in E as (s2 & ss & Es & E). unfold lift in Es.
    injection Es as <- Es. rewrite Hk in Es.
    unfold mret, M_ret in E. injection E as <-. simpl.
    split; [done|]. exists k. split_and!; [exact Hk | exact Hd | done | exact Hne | exact Es].
  - intros s0 s1 r0 E0.
    apply bind_inv in E0 as [(e & E0 & _) | (s2 & cs & Ec & E0)].
    { by apply find_classes_spec in E0 as [-> _]. }
    apply find_classes_spec in Ec as [-> _].
    apply bind_inv in E0 as [(e & E0 & _) | (s3 & ss & Es & E0)]; unfold lift in *.
    + by simplify_eq.
    + unfold_M. by simplify_eq.
Qed.

Lemma DataLoader_init_spec {T} (d : ImageFolder T) bs sh nw pin s s' r :
  DataLoader_init d bs sh nw pin s = (s', r) →
  fs s' = fs s ∧ cwd s' = cwd s ∧ cpus s' = cpus s ∧ faults s' = faults s
  ∧ calls s' = calls s ++ CDataLoader bs sh nw pin :: outcome r
  ∧ ∀ dl, r = inr dl →
      ∃ n, nw = Some n ∧ (0 ≤ n)%Z ∧ (0 < bs)%Z
           ∧ (sh = true → samples d ≠ [])
           ∧ dl = {| dataset := d; batch_size := bs; shuffle := sh; num_workers := n;
                     pin_memory := pin |}.
Proof.
  intros E. apply called_state_inv in E as (E & Hrest).
  - destruct Hrest as (? & ? & ? & ? & ?). split_and!; try done. intros dl ->.
    destruct nw as [n|]; [|done]. exists n.
    case_bool_decide; [done|]. destruct sh; simpl in E.
    + case_bool_decide; [done|]. case_bool_decide; [done|].
      injection E as <-. split_and!; try done; lia.
    + case_bool_decide; [done|]. injection E as <-. split_and!; try done; lia.
  - intros s0 s1 r0. destruct nw as [n|]; [|by intros [= <- _]].
    repeat (case_bool_decide || destruct sh; simpl); by intros [= <- _].
Qed.

Lemma string_compare_trans_le a b c :
  String.compare a b ≠ Gt → String.compare b c ≠ Gt → String.compare a c ≠ Gt.
Proof.
  revert b c. induction a as [|x a IH]; intros [|y b] [|z c]; simpl; try done.
  unfold Ascii.compare.
  destruct (N.compare_spec (N_of_ascii x) (N_of_ascii y)) as [Hxy|Hxy|Hxy]; [| |done];
    destruct (N.compare_spec (N_of_ascii y) (N_of_ascii z)) as [Hyz|Hyz|Hyz]; try done;
    destruct (N.compare_spec (N_of_ascii x) (N_of_ascii z)) as [Hxz|Hxz|Hxz]; try done;
    try lia.
  apply IH.
Qed.

#[local] Instance str_le_trans : Transitive str_le.
Proof.
  intros a b c. unfold str_le, String.leb.
  pose proof (string_compare_trans_le a b c) as Ht.
  destruct (String.compare a b), (String.compare b c), (String.compare a c);
    try done; intros _ _; exfalso; by apply Ht.
Qed.

#[local] Instance str_le_antisym : AntiSymm (=) str_le.
Proof. intros a b. apply String.leb_antisym. Qed.

(** What a successful [create_dataloaders] has done, call by call. *)
Lemma create_dataloaders_inv `{Runtime} {T} module train_dir test_dir (ttf tetf : T)
    bs nw s s' tr te names :
  create_dataloaders module train_dir test_dir ttf tetf bs nw s = (s', inr (tr, te, names)) →
  ∃ td ted s1 s2 s3,
    ImageFolder_init train_dir ttf s = (s1, inr td)
    ∧ ImageFolder_init test_dir tetf s1 = (s2, inr ted)
    ∧ DataLoader_init td bs true (default (NUM_WORKERS module) nw) true s2 = (s3, inr tr)
    ∧ DataLoader_init ted bs false (default (NUM_WORKERS module) nw) true s3 = (s', inr te)
    ∧ names = classes td.
Proof.
  unfold create_dataloaders. intros E.
  apply bind_inv_inr in E as (s1 & td & E1 & E).
  apply bind_inv_inr in E as (s2 & ted & E2 & E).
  apply bind_inv_inr in E as (s3 & tr' & E3 & E).
  apply bind_inv_inr in E as (s4 & te' & E4 & E).
  injection E as <- <- <- <-. by exists td, ted, s1, s2, s3.
Qed.

Lemma create_dataloaders_names `{Runtime} {T} module train_dir test_dir (ttf tetf : T)
    bs nw s s' tr te names :
  create_dataloaders module train_dir test_dir ttf tetf bs nw s = (s', inr (tr, te, names)) →
  ∃ k, resolve s (Path.of_string (expanduser train_dir)) = inr k
       ∧ (∀ n, n ∈ names ↔ fs s !! (k ++ [n]) = Some Dir)
       ∧ NoDup names ∧ Sorted str_le names
       ∧ names ≡ₚ scandir_dirs (fs s) k.
Proof.
  intros (td & ted & s1 & s2 & s3 & E1 & _ & _ & _ & ->)%create_dataloaders_inv.
  apply ImageFolder_init_spec in E1 as (_ & _ & _ & _ & _ & Hd).
  destruct (Hd td eq_refl) as (_ & k & Hk & _ & Hc & _ & _).
  exists k. rewrite Hc. split_and!.
  - done.
  - intros n. by rewrite merge_sort_Permutation, elem_of_scandir_dirs.
  - rewrite merge_sort_Permutation. apply NoDup_scandir_dirs.
  - apply Sorted_merge_sort, _.
  - apply merge_sort_Permutation.
Qed.

(** C4. The class names [create_dataloaders] returns are the names of the
    directories directly inside the training directory, each once, in
    sorted order (so as many as there are such directories, whatever order
    the file system lists them in). Nothing else decides them: any other
    successful call for the same training directory, with any testing
    directory, transforms, batch size and worker count, on any file system
    where the training directory has the same subdirectories, returns the
    same list; the testing directory is never compared with it. *)
Theorem create_dataloaders_class_names `{Runtime} {T} (module : data_setup)
    (train_dir test_dir : string) (train_transform test_transform : T) (batch_size : Z)
    (num_workers : option (option Z)) (s s' : state) (tr te : DataLoader T)
    (names : list string) :
  create_dataloaders module train_dir test_dir train_transform test_transform batch_size
    num_workers s = (s', inr (tr, te, names)) →
  ∃ k, resolve s (Path.of_string (expanduser train_dir)) = inr k
       ∧ (∀ n, n ∈ names ↔ fs s !! (k ++ [n]) = Some Dir)
       ∧ NoDup names ∧ Sorted str_le names
       ∧ names ≡ₚ scandir_dirs (fs s) k
       ∧ names = classes (dataset tr)
       ∧ ∀ module2 test_dir2 (train_transform2 test_transform2 : T) batch_size2 num_workers2
           s2 s2' tr2 te2 names2 k2,
           create_dataloaders module2 train_dir test_dir2 train_transform2 test_transform2
             batch_size2 num_workers2 s2 = (s2', inr (tr2, te2, names2)) →
           resolve s2 (Path.of_string (expanduser train_dir)) = inr k2 →
           (∀ n, fs s2 !! (k2 ++ [n]) = Some Dir ↔ fs s !! (k ++ [n]) = Some Dir) →
           names2 = names.
Proof.
  intros E. destruct (create_dataloaders_names _ _ _ _ _ _ _ _ _ _ _ _ E)
    as (k & Hk & Hin & Hnd & Hs & Hp).
  exists k. split_and!; try done.
  - apply create_dataloaders_inv in E as (td & ted & s1 & s2 & s3 & _ & _ & E3 & _ & ->).
    apply DataLoader_init_spec in E3 as (_ & _ & _ & _ & _ & Hdl).
    by destruct (Hdl tr eq_refl) as (n & _ & _ & _ & _ & ->).
  - intros module2 test_dir2 ttf2 tetf2 bs2 nw2 s2 s2' tr2 te2 names2 k2 E2 Hk2 Hsame.
    destruct (create_dataloaders_names _ _ _ _ _ _ _ _ _ _ _ _ E2)
      as (k2' & Hk2' & Hin2 & Hnd2 & Hs2 & _).
    assert (k2' = k2) as -> by congruence.
    apply (Sorted_unique str_le); try done.
    apply NoDup_Permutation; try done. intros n. by rewrite Hin2, Hin, Hsame.
Qed.

Lemma create_dataloaders_class_names_witness :
  let run := create_dataloaders (H := toy_runtime) (T := string) {| NUM_WORKERS := Some 8%Z |}
               "data/food" "data/food" "train_tf" "test_tf" 32 None machine_with_food in
  ∃ tr te, run = (run.1, inr (tr, te, ["pizza"; "sushi"]))
  ∧ ∃ k, resolve machine_with_food (Path.of_string "data/food") = inr k
       ∧ (∀ n, n ∈ ["pizza"; "sushi"] ↔ fs machine_with_food !! (k ++ [n]) = Some Dir)
       ∧ NoDup ["pizza"; "sushi"] ∧ Sorted str_le ["pizza"; "sushi"]
       ∧ ["pizza"; "sushi"] ≡ₚ scandir_dirs (fs machine_with_food) k
       ∧ ["pizza"; "sushi"] = classes (dataset tr)
       ∧ ∀ module2 test_dir2 (train_transform2 test_transform2 : string) batch_size2
           num_workers2 s2 s2' tr2 te2 names2 k2,
           create_dataloaders (H := toy_runtime) module2 "data/food" test_dir2
             train_transform2 test_transform2 batch_size2 num_workers2 s2
           = (s2', inr (tr2, te2, names2)) →
           resolve s2 (Path.of_string "data/food") = inr k2 →
           (∀ n, fs s2 !! (k2 ++ [n]) = Some Dir
                 ↔ fs machine_with_food !! (k ++ [n]) = Some Dir) →
           names2 = ["pizza"; "sushi"].
Proof.
  intros run.
  assert (∃ tr te, run.2 = inr (tr, te, ["pizza"; "sushi"])) as (tr & te & H2)
    by (vm_compute; by eexists _, _).
  pose proof (run_eq _ _ _ H2) as Hrun.
  exists tr, te. split; [exact Hrun|].
  exact (create_dataloaders_class_names (H := toy_runtime) _ _ _ _ _ _ _ _ _ _ _ _ Hrun).
Defined.

Lemma omap_lookup_seq_app {A} (pre l : list A) :
  omap (λ i, (pre ++ l) !! i) (seq (length pre) (length l)) = l.
Proof.
  revert pre. induction l as [|x l IH]; intros pre; [done|]. simpl.
  rewrite list_lookup_middle by done. f_equal.
  specialize (IH (pre ++ [x])). rewrite <- app_assoc, length_app in IH. simpl in IH.
  by rewrite Nat.add_1_r in IH.
Qed.

Lemma omap_lookup_seq {A} (l : list A) : omap (λ i, l !! i) (seq 0 (length l)) = l.
Proof. apply (omap_lookup_seq_app [] l). Qed.

(** C5. The loaders [create_dataloaders] returns are constructed with
    shuffle=True for training and shuffle=False for testing. A traversal of
    the testing loader yields the samples of its dataset in the order the
    dataset lists them, in batches, whatever the state of the random
    generator: every traversal gives the same order. A traversal of the
    training loader yields them in the permutation of a seed that is drawn
    from the generator when that traversal starts. *)
Theorem create_dataloaders_shuffle `{Runtime} `{Torch} {T} (module : data_setup)
    (train_dir test_dir : string) (train_transform test_transform : T) (batch_size : Z)
    (num_workers : option (option Z)) (s s' : state) (tr te : DataLoader T)
    (names : list string) :
  create_dataloaders module train_dir test_dir train_transform test_transform batch_size
    num_workers s = (s', inr (tr, te, names)) →
  shuffle tr = true ∧ shuffle te = false
  ∧ (∃ w, calls s' = calls s ++ [CImageFolder train_dir; CImageFolder test_dir;
                                  CDataLoader batch_size true w true;
                                  CDataLoader batch_size false w true])
  ∧ (∀ g, (traverse te g).1 = batches (Z.to_nat batch_size) (samples (dataset te)))
  ∧ (∀ g g', (traverse te g).1 = (traverse te g').1)
  ∧ (∀ g, (traverse tr g).1
          = batches (Z.to_nat batch_size)
              (omap (λ i, samples (dataset tr) !! i)
                 (randperm (random_int64 (random_int64 g).2).1
                    (length (samples (dataset tr)))))).
Proof.
  intros (td & ted & s1 & s2 & s3 & E1 & E2 & E3 & E4 & ->)%create_dataloaders_inv.
  apply ImageFolder_init_spec in E1 as (_ & _ & _ & _ & C1 & _).
  apply ImageFolder_init_spec in E2 as (_ & _ & _ & _ & C2 & _).
  apply DataLoader_init_spec in E3 as (_ & _ & _ & _ & C3 & D3).
  apply DataLoader_init_spec in E4 as (_ & _ & _ & _ & C4 & D4).
  destruct (D3 tr eq_refl) as (n & Hn & _ & _ & _ & ->).
  destruct (D4 te eq_refl) as (n' & _ & _ & _ & _ & ->).
  assert (∀ g, (traverse {| dataset := ted; batch_size := batch_size; shuffle := false;
                            num_workers := n'; pin_memory := true |} g).1
               = batches (Z.to_nat batch_size) (samples ted)) as Hte.
  { intros g. unfold traverse. simpl. destruct (random_int64 g) as [? g1]. simpl.
    by rewrite omap_lookup_seq. }
  split_and!; try done.
  - exists (default (NUM_WORKERS module) num_workers).
    rewrite C4, C3, C2, C1. simpl. by rewrite <- !app_assoc.
  - intros g g'. by rewrite !Hte.
  - intros g. unfold traverse. simpl. destruct (random_int64 g) as [? g1]. simpl.
    by destruct (random_int64 g1) as [seed g2].
Qed.

Lemma create_dataloaders_shuffle_witness :
  let run := create_dataloaders (H := toy_runtime) (T := string) {| NUM_WORKERS := Some 8%Z |}
               "data/food" "data/food" "train_tf" "test_tf" 1 None machine_with_food in
  ∃ tr te names, run = (run.1, inr (tr, te, names))
  ∧ shuffle tr = true ∧ shuffle te = false
  ∧ (∃ w, calls run.1 = calls machine_with_food
                        ++ [CImageFolder "data/food"; CImageFolder "data/food";
                            CDataLoader 1 true w true; CDataLoader 1 false w true])
  ∧ (∀ g, (traverse (H := toy_torch) te g).1
          = batches (Z.to_nat 1) (samples (dataset te)))
  ∧ (∀ g g', (traverse (H := toy_torch) te g).1 = (traverse (H := toy_torch) te g').1)
  ∧ (∀ g, (traverse (H := toy_torch) tr g).1
          = batches (Z.to_nat 1)
              (omap (λ i, samples (dataset tr) !! i)
                 (randperm (Torch := toy_torch)
                    (random_int64 (Torch := toy_torch)
                       (random_int64 (Torch := toy_torch) g).2).1
                    (length (samples (dataset tr)))))).
Proof.
  intros run.
  assert (∃ tr te names, run.2 = inr (tr, te, names)) as (tr & te & names & H2)
    by (vm_compute; by eexists _, _, _).
  pose proof (run_eq _ _ _ H2) as Hrun.
  exists tr, te, names. split; [exact Hrun|].
  exact (create_dataloaders_shuffle (H := toy_runtime) (H0 := toy_torch)
           _ _ _ _ _ _ _ _ _ _ _ _ Hrun).
Defined.

(** C6. Both loaders [create_dataloaders] returns are constructed with
    pin_memory=True and with the same worker count: the one the caller
    gives, or, when the caller gives none, the value os.cpu_count() had
    when the module was loaded, whatever it is when the function is
    called. *)
Theorem create_dataloaders_workers `{Runtime} {T} (s0 s0' : state) (module : data_setup)
    (train_dir test_dir : string) (train_transform test_transform : T) (batch_size : Z)
    (workers : option (option Z)) (s s' : state) (tr te : DataLoader T)
    (names : list string) :
  import_data_setup s0 = (s0', inr module) →
  create_dataloaders module train_dir test_dir train_transform test_transform batch_size
    workers s = (s', inr (tr, te, names)) →
  pin_memory tr = true ∧ pin_memory te = true
  ∧ num_workers te = num_workers tr
  ∧ (∃ w, w = Some (num_workers tr)
          ∧ calls s' = calls s ++ [CImageFolder train_dir; CImageFolder test_dir;
                                   CDataLoader batch_size true w true;
                                   CDataLoader batch_size false w true])
  ∧ match workers with
    | Some given => given = Some (num_workers tr)
    | None => cpus s0 = Some (num_workers tr)
    end.
Proof.
  intros Ei (td & ted & s1 & s2 & s3 & E1 & E2 & E3 & E4 & ->)%create_dataloaders_inv.
  assert (NUM_WORKERS module = cpus s0) as Hm.
  { unfold import_data_setup in Ei. unfold_M. by simplify_eq. }
  apply ImageFolder_init_spec in E1 as (_ & _ & _ & _ & C1 & _).
  apply ImageFolder_init_spec in E2 as (_ & _ & _ & _ & C2 & _).
  apply DataLoader_init_spec in E3 as (_ & _ & _ & _ & C3 & D3).
  apply DataLoader_init_spec in E4 as (_ & _ & _ & _ & C4 & D4).
  destruct (D3 tr eq_refl) as (n & Hn & _ & _ & _ & ->).
  destruct (D4 te eq_refl) as (n' & Hn' & _ & _ & _ & ->). simpl.
  assert (n' = n) as -> by congruence.
  split_and!; try done.
  - exists (Some n). split; [done|]. rewrite C4, C3, C2, C1, Hn. simpl.
    by rewrite <- !app_assoc.
  - destruct workers as [given|]; simpl in Hn; [done|]. by rewrite <- Hm.
Qed.

Lemma create_dataloaders_workers_witness :
  let later := {| fs := fs machine_with_food; cwd := cwd machine_with_food;
                  net := net machine_with_food; cpus := Some 2%Z;
                  faults := []; calls := [] |} in
  let run := create_dataloaders (H := toy_runtime) (T := string) {| NUM_WORKERS := Some 8%Z |}
               "data/food" "data/food" "train_tf" "test_tf" 32 None later in
  import_data_setup fresh_machine = (fresh_machine, inr {| NUM_WORKERS := Some 8%Z |})
  ∧ ∃ tr te names, run = (run.1, inr (tr, te, names))
  ∧ pin_memory tr = true ∧ pin_memory te = true
  ∧ num_workers te = num_workers tr
  ∧ (∃ w, w = Some (num_workers tr)
          ∧ calls run.1 = calls later ++ [CImageFolder "data/food"; CImageFolder "data/food";
                                          CDataLoader 32 true w true;
                                          CDataLoader 32 false w true])
  ∧ cpus fresh_machine = Some (num_workers tr).
Proof.
  intros later run. split; [reflexivity|].
  assert (∃ tr te names, run.2 = inr (tr, te, names)) as (tr & te & names & H2)
    by (vm_compute; by eexists _, _, _).
  pose proof (run_eq _ _ _ H2) as Hrun.
  exists tr, te, names. split; [exact Hrun|].
  exact (create_dataloaders_workers (H := toy_runtime) fresh_machine fresh_machine _
           _ _ _ _ _ None _ _ _ _ _ eq_refl Hrun).
Defined.

(** ** create_model_baseline_vit *)

Section Model.
Context `{Torch} `{Utils}.

Lemma tcalled_inv {A} c (body : M torch A) s s' r :
  tcalled c body s = (s', r) →
  ∃ s1, body (tlog c s) = (s1, r)
        ∧ s' = match r with inl e => tlog (TRaised e) s1 | inr _ => s1 end.
Proof.
  unfold tcalled. intros E. change (try_except body (λ _, true)
    (λ e, modify (tlog (TRaised e));; raise e) (tlog c s) = (s', r)) in E.
  unfold try_except in E. destruct (body (tlog c s)) as [s1 [e|a]] eqn:Eb.
  - injection E as <- <-. by exists s1.
  - injection E as <- <-. by exists s1.
Qed.

Lemma vit_b_16_spec s s' r :
  vit_b_16 s = (s', r) →
  r = hub s ∧ rng s' = init_vit (rng s) ∧ hub s' = hub s ∧ available s' = available s
  ∧ tcalls s' = tcalls s ++ TVit :: toutcome r.
Proof.
  intros (s1 & E & ->)%tcalled_inv. unfold_M. injection E as <- <-.
  destruct (hub s) eqn:Hh; simpl; split_and!; try done.
  by rewrite <- app_assoc.
Qed.

Lemma to_spec d m s s' r :
  to d m s = (s', r) →
  rng s' = rng s ∧ hub s' = hub s ∧ available s' = available s
  ∧ tcalls s' = tcalls s ++ TTo d :: toutcome r
  ∧ match r with
    | inr m' => m' = moved d m ∧ (∀ d0, d = Some d0 → available s d0 = true)
    | inl e => e = RuntimeError ∧ ∃ d0, d = Some d0 ∧ available s d0 = false
    end.
Proof.
  intros (s1 & E & ->)%tcalled_inv. destruct d as [d|].
  - unfold_M. destruct (available s d) eqn:Ha; injection E as <- <-; simpl;
      split_and!; try done; try (by rewrite <- app_assoc).
    + by intros d0 [= <-].
    + by exists d.
  - unfold_M. injection E as <- <-. simpl. by split_and!.
Qed.

Lemma set_seeds_spec s s' r :
  set_seeds s = (s', r) →
  r = inr tt ∧ rng s' = manual_seed seed ∧ hub s' = hub s ∧ available s' = available s
  ∧ tcalls s' = tcalls s ++ [TSetSeeds].
Proof. intros (s1 & E & ->)%tcalled_inv. unfold_M. by injection E as <- <-. Qed.

Lemma nn_Linear_spec i o s s' r :
  nn_Linear i o s = (s', r) →
  hub s' = hub s ∧ available s' = available s
  ∧ tcalls s' = tcalls s ++ TLinear i o :: toutcome r
  ∧ match r with
    | inr m =>
        (0 ≤ i)%Z ∧ (0 ≤ o)%Z
        ∧ rng s' = (reset_parameters (rng s) i o).2
        ∧ m = Module_ [("weight", {| shape := [o; i];
                                     value := (reset_parameters (rng s) i o).1.1;
                                     requires_grad := true; on := cpu |});
                       ("bias", {| shape := [o];
                                   value := (reset_parameters (rng s) i o).1.2;
                                   requires_grad := true; on := cpu |})] []
    | inl e => e = (if int64 i && int64 o then RuntimeError else TypeError)
               ∧ (int64 i && int64 o = true → (i < 0)%Z ∨ (o < 0)%Z)
               ∧ rng s' = rng s
    end.
Proof.
  intros (s1 & E & ->)%tcalled_inv.
  destruct (int64 i && int64 o) eqn:H64; simpl in E;
    [|unfold_M; injection E as <- <-; simpl; split_and!; try done;
      by rewrite <- app_assoc].
  destruct (bool_decide (i < 0)%Z || bool_decide (o < 0)%Z) eqn:Hneg.
  - unfold_M. injection E as <- <-. simpl. split_and!; try done;
      try (by rewrite <- app_assoc).
    apply orb_true_iff in Hneg as [?%bool_decide_eq_true | ?%bool_decide_eq_true]; auto.
  - apply orb_false_iff in Hneg as [?%bool_decide_eq_false ?%bool_decide_eq_false].
    unfold_M. destruct (reset_parameters (rng s) i o) as [[w b] g'] eqn:Hr.
    unfold_M. injection E as <- <-. simpl. split_and!; try done; lia.
Qed.

Lemma nn_Linear_int64 i o s s' m :
  nn_Linear i o s = (s', inr m) → int64 i = true ∧ int64 o = true.
Proof.
  intros (s1 & E & _)%tcalled_inv.
  destruct (int64 i && int64 o) eqn:H64; simpl in E; [|by unfold_M].
  by apply andb_true_iff in H64.
Qed.

Lemma parameters_map_parameters f :
  ∀ m, parameters (map_parameters f m) = map f (parameters m).
Proof.
  fix IH 1. intros [o c]. simpl. rewrite map_app. f_equal.
  - clear IH. rewrite !map_map. reflexivity.
  - induction c as [|[n m] c IHc]; simpl; [reflexivity|].
    rewrite map_app, IH, IHc. reflexivity.
Qed.

Lemma frozen_parameters m :
  Forall (λ p, requires_grad p = false)
    (parameters (map_parameters (set_requires_grad false) m)).
Proof. rewrite parameters_map_parameters. by apply Forall_fmap, Forall_true. Qed.

Lemma elem_of_set_child name new c n m :
  (n, m) ∈ set_child name new c → n ≠ name → (n, m) ∈ c.
Proof.
  intros Hin Hne. induction c as [|[n' m'] c IH]; simpl in Hin.
  - apply list_elem_of_singleton in Hin. congruence.
  - case_decide.
    + apply elem_of_cons in Hin as [? | ?]; [congruence | by right].
    + apply elem_of_cons in Hin as [-> | ?]; [by left | right; auto].
Qed.

Lemma get_child_set_child name new c : get_child name (set_child name new c) = Some new.
Proof.
  induction c as [|[n m] c IH]; simpl; [by rewrite decide_True|].
  case_decide; simpl; [by rewrite decide_True | by rewrite decide_False].
Qed.

Lemma set_child_names name new c :
  (set_child name new c).*1 = if decide (name ∈ c.*1) then c.*1 else c.*1 ++ [name].
Proof.
  induction c as [|[n m] c IH].
  - destruct (decide (name ∈ ([] : list (string * nn_Module)).*1)) as [Hin|_]; [|done].
    by apply elem_of_nil in Hin.
  - cbn [set_child]. destruct (decide (n = name)) as [-> | Hn].
    + destruct (decide (name ∈ ((name, m) :: c).*1)) as [_|Hnin]; [done|].
      exfalso. apply Hnin. by left.
    + rewrite fmap_cons, IH. cbn [fst].
      destruct (decide (name ∈ c.*1)) as [Hin|Hnin].
      * destruct (decide (name ∈ ((n, m) :: c).*1)) as [_|Hnin']; [done|].
        exfalso. apply Hnin'. by right.
      * destruct (decide (name ∈ ((n, m) :: c).*1)) as [Hin'|_]; [|done].
        apply elem_of_cons in Hin' as [?|?]; by simplify_eq.
Qed.

Lemma moved_linear d w b o i :
  moved d (Module_ [("weight", {| shape := [o; i]; value := w; requires_grad := true;
                                  on := cpu |});
                    ("bias", {| shape := [o]; value := b; requires_grad := true;
                                on := cpu |})] [])
  = Module_ [("weight", {| shape := [o; i]; value := w; requires_grad := true;
                           on := default cpu d |});
             ("bias", {| shape := [o]; value := b; requires_grad := true;
                         on := default cpu d |})] [].
Proof. by destruct d. Qed.

(** A successful [create_model_baseline_vit], call by call. *)
Lemma create_model_baseline_vit_inv out_feats device s s' m :
  create_model_baseline_vit out_feats device s = (s', inr m) →
  ∃ m0, hub s = inr m0
        ∧ m = setattr (map_parameters (set_requires_grad false) (moved device m0)) "heads"
                (seeded_head out_feats device)
        ∧ (0 ≤ out_feats)%Z
        ∧ (∀ d, device = Some d → available s d = true)
        ∧ tcalls s' = tcalls s ++ [TVit; TTo device; TSetSeeds; TLinear 768 out_feats;
                                   TTo device].
Proof.
  unfold create_model_baseline_vit. intros E.
  apply bind_inv_inr in E as (s2 & m1 & E & E').
  apply bind_inv_inr in E as (s1 & m0 & Ev & Et).
  apply vit_b_16_spec in Ev as (Hm0 & _ & _ & Ha1 & C1).
  apply to_spec in Et as (_ & _ & Ha2 & C2 & -> & Hav).
  apply bind_inv_inr in E' as (s3 & [] & Es & E').
  apply set_seeds_spec in Es as (_ & Hrng & _ & Ha3 & C3).
  apply bind_inv_inr in E' as (s5 & hd & E' & Er).
  apply bind_inv_inr in E' as (s4 & l & El & Et').
  apply nn_Linear_spec in El as (_ & Ha4 & C4 & _ & Ho & _ & ->).
  apply to_spec in Et' as (_ & _ & _ & C5 & -> & _).
  injection Er as <- <-. exists m0. split_and!; try done.
  - f_equal. rewrite moved_linear, Hrng. unfold seeded_head.
    by destruct (reset_parameters (manual_seed seed) 768 out_feats) as [[w b] g].
  - intros d Hd. rewrite <- Ha1. by apply Hav.
  - rewrite C5, C4, C3, C2, C1. simpl. by rewrite <- !app_assoc.
Qed.

(** C7. The model [create_model_baseline_vit] returns has requires_grad
    False on each of its own parameters and on every parameter of every
    submodule other than the head, and its submodule "heads" is one linear
    layer, newly created: a weight of shape (out_feats, 768) and a bias of
    shape (out_feats), trainable, on the requested device (on the cpu when
    none is requested). So for out_feats = 3 the head gives 3 values. *)
Theorem create_model_baseline_vit_head (out_feats : Z) (device : option device)
    (s s' : torch) (m : nn_Module) :
  create_model_baseline_vit out_feats device s = (s', inr m) →
  Forall (λ np, requires_grad np.2 = false) (own m)
  ∧ (∀ n c, (n, c) ∈ children m → n ≠ "heads" →
            Forall (λ p, requires_grad p = false) (parameters c))
  ∧ (∃ weight bias,
       get_child "heads" (children m)
       = Some (Module_ [("weight", {| shape := [out_feats; 768%Z]; value := weight;
                                      requires_grad := true; on := default cpu device |});
                        ("bias", {| shape := [out_feats]; value := bias;
                                    requires_grad := true; on := default cpu device |})]
                       []))
  ∧ (0 ≤ out_feats)%Z.
Proof.
  intros (m0 & _ & -> & Ho & _ & _)%create_model_baseline_vit_inv.
  set (body := moved device m0). split_and!.
  - destruct body as [o c]. simpl. apply Forall_forall. intros np Hnp.
    apply list_elem_of_In, in_map_iff in Hnp as (np0 & <- & _). done.
  - intros n c Hin Hne. simpl in Hin. apply elem_of_set_child in Hin; [|done].
    destruct body as [o cs]. simpl in Hin.
    apply list_elem_of_In, in_map_iff in Hin as ([n0 c0] & [= <- <-] & _).
    apply frozen_parameters.
  - simpl. rewrite get_child_set_child. unfold seeded_head.
    destruct (reset_parameters (manual_seed seed) 768 out_feats) as [[w b] g].
    by exists w, b.
  - done.
Qed.

(** C8. [create_model_baseline_vit] calls set_seeds just before it
    constructs the linear head, so the head is the one nn.Linear draws from
    the generator as the fixed seed leaves it: two successful calls with the
    same out_feats and device return the same head, weights and bias
    included, whatever state the generator and the rest of the process were
    in before each call. *)
Theorem create_model_baseline_vit_reproducible (out_feats : Z) (device : option device)
    (s1 s1' s2 s2' : torch) (m1 m2 : nn_Module) :
  create_model_baseline_vit out_feats device s1 = (s1', inr m1) →
  create_model_baseline_vit out_feats device s2 = (s2', inr m2) →
  get_child "heads" (children m1) = get_child "heads" (children m2)
  ∧ get_child "heads" (children m1) = Some (seeded_head out_feats device)
  ∧ tcalls s1' = tcalls s1 ++ [TVit; TTo device; TSetSeeds; TLinear 768 out_feats; TTo device].
Proof.
  intros (m01 & _ & -> & _ & _ & C1)%create_model_baseline_vit_inv
         (m02 & _ & -> & _ & _ & _)%create_model_baseline_vit_inv.
  simpl. by rewrite !get_child_set_child.
Qed.

End Model.

Lemma create_model_baseline_vit_head_witness :
  let run := create_model_baseline_vit (H := toy_torch) (H0 := toy_utils) 3 (Some cpu)
               toy_process in
  ∃ m, run = (run.1, inr m)
  ∧ Forall (λ np, requires_grad np.2 = false) (own m)
  ∧ (∀ n c, (n, c) ∈ children m → n ≠ "heads" →
            Forall (λ p, requires_grad p = false) (parameters c))
  ∧ (∃ weight bias,
       get_child "heads" (children m)
       = Some (Module_ [("weight", {| shape := [3%Z; 768%Z]; value := weight;
                                      requires_grad := true; on := cpu |});
                        ("bias", {| shape := [3%Z]; value := bias;
                                    requires_grad := true; on := cpu |})]
                       []))
  ∧ (0 ≤ 3)%Z.
Proof.
  intros run.
  assert (∃ m, run.2 = inr m) as (m & H2) by (vm_compute; by eexists).
  pose proof (run_eq _ _ _ H2) as Hrun. exists m. split; [exact Hrun|].
  exact (create_model_baseline_vit_head (H := toy_torch) (H0 := toy_utils) 3 (Some cpu)
           toy_process run.1 m Hrun).
Defined.

Lemma create_model_baseline_vit_reproducible_witness :
  let other := {| rng := (1000%Z : generator (Torch := toy_torch)); hub := inr toy_vit;
                  available := λ _, true; tcalls := [TSetSeeds] |} in
  let run1 := create_model_baseline_vit (H := toy_torch) (H0 := toy_utils) 3 None
                toy_process in
  let run2 := create_model_baseline_vit (H := toy_torch) (H0 := toy_utils) 3 None other in
  ∃ m1 m2, run1 = (run1.1, inr m1) ∧ run2 = (run2.1, inr m2)
  ∧ get_child "heads" (children m1) = get_child "heads" (children m2)
  ∧ get_child "heads" (children m1)
    = Some (seeded_head (H := toy_torch) (H0 := toy_utils) 3 None)
  ∧ tcalls run1.1 = tcalls toy_process ++ [TVit; TTo None; TSetSeeds; TLinear 768 3; TTo None].
Proof.
  intros other run1 run2.
  assert (∃ m, run1.2 = inr m) as (m1 & H1) by (vm_compute; by eexists).
  assert (∃ m, run2.2 = inr m) as (m2 & H2) by (vm_compute; by eexists).
  pose proof (run_eq _ _ _ H1) as Hrun1. pose proof (run_eq _ _ _ H2) as Hrun2.
  exists m1, m2. split; [exact Hrun1|]. split; [exact Hrun2|].
  exact (create_model_baseline_vit_reproducible (H := toy_torch) (H0 := toy_utils) 3 None
           toy_process run1.1 other run2.1 m1 m2 Hrun1 Hrun2).
Defined.

(** ** Errors come through unchanged *)

Section Tracks.
Context {St C : Type} (lg : St → list C) (raised : exn → C).

Lemma tracks_quiet {A} (m : M St A) :
  (∀ s s' r, m s = (s', r) → lg s' = lg s ∧ ∃ a, r = inr a) → tracks lg raised m.
Proof.
  intros Hm s s' r E. destruct (Hm _ _ _ E) as (Hl & a & ->). exists [].
  split; [by rewrite app_nil_r | constructor].
Qed.

Lemma tracks_ret {A} (a : A) : tracks lg raised (mret a).
Proof. apply tracks_quiet. intros s s' r [= <- <-]. eauto. Qed.

Lemma tracks_gets {A} (f : St → A) : tracks lg raised (gets f).
Proof. apply tracks_quiet. intros s s' r [= <- <-]. eauto. Qed.

Lemma tracks_bind {A B} (m : M St A) (k : A → M St B) :
  tracks lg raised m → (∀ a, tracks lg raised (k a)) → tracks lg raised (m ≫= k).
Proof.
  intros Hm Hk s s' r E. apply bind_inv in E as [(e & E & ->) | (s1 & a & E1 & E2)].
  - apply Hm in E as (new & Hl & Hp). by exists new.
  - apply Hm in E1 as (new1 & Hl1 & Hp1). apply Hk in E2 as (new2 & Hl2 & Hp2).
    exists (new1 ++ new2). split; [by rewrite Hl2, Hl1, app_assoc|].
    simpl in Hp1. destruct r as [e|b]; simpl in *.
    + destruct Hp2 as (pre & -> & Hpre). exists (new1 ++ pre).
      split; [by rewrite app_assoc | by apply Forall_app].
    + by apply Forall_app.
Qed.

(** A call that records itself and the exception it raises. *)
Lemma tracks_recorded {A} (add : C → St → St) c (body : M St A) :
  (∀ c s, lg (add c s) = lg s ++ [c]) →
  (∀ e, c ≠ raised e) →
  (∀ s s' r, body s = (s', r) → lg s' = lg s) →
  tracks lg raised
    (modify (add c);; try_except body (λ _, true) (λ e, modify (add (raised e));; raise e)).
Proof.
  intros Hadd Hc Hbody s s' r E.
  change (try_except body (λ _, true) (λ e, modify (add (raised e));; raise e) (add c s)
          = (s', r)) in E.
  unfold try_except in E. destruct (body (add c s)) as [s1 [e|a]] eqn:Eb;
    injection E as <- <-; apply Hbody in Eb.
  - exists [c; raised e]. simpl. split.
    + rewrite Hadd, Eb, Hadd. by rewrite <- app_assoc.
    + exists [c]. split; [done|]. by constructor.
  - exists [c]. split; [by rewrite Eb, Hadd|]. by constructor.
Qed.

End Tracks.

Lemma tracks_called {A} c (body : M state A) :
  (∀ e, c ≠ CRaised e) → respects frame body → tracks calls CRaised (called c body).
Proof.
  intros Hc Hb. apply (tracks_recorded calls CRaised log); [done | done |].
  intros s s' r E. by apply Hb, frame_calls in E.
Qed.

Lemma tracks_print l : tracks calls CRaised (print l).
Proof.
  intros s s' r [= <- <-]. exists [CPrint l]. split; [done|]. by constructor.
Qed.

Lemma tracks_download_data `{Runtime} source destination remove_source :
  tracks calls CRaised (download_data source destination remove_source).
Proof.
  unfold download_data, is_dir, mkdir, open_wb, requests_get, write, ZipFile, extractall,
    os_remove.
  repeat first
    [ apply tracks_ret | apply tracks_gets | apply tracks_print
    | apply tracks_called; [done | by respects_tac]
    | apply tracks_bind; [|intros ?]
    | match goal with |- tracks _ _ (if ?b then _ else _) => destruct b end ].
Qed.

Lemma DataLoader_init_quiet {T} (d : ImageFolder T) bs sh nw pin :
  tracks calls CRaised (DataLoader_init d bs sh nw pin).
Proof.
  apply tracks_called; [done|]. intros s s' r.
  destruct nw as [n|]; [|by intros [= <- _]].
  repeat (case_bool_decide || destruct sh; simpl); by intros [= <- _].
Qed.

Lemma ImageFolder_init_quiet `{Runtime} {T} root (tf : T) :
  tracks calls CRaised (ImageFolder_init root tf).
Proof.
  apply tracks_called; [done|]. intros s0 s1 r0 E0.
  assert (s1 = s0) as ->; [|done].
  apply bind_inv in E0 as [(e & E0 & _) | (s2 & cs & Ec & E0)].
  { by apply find_classes_spec in E0 as [-> _]. }
  apply find_classes_spec in Ec as [-> _].
  apply bind_inv in E0 as [(e & E0 & _) | (s3 & ss & Es & E0)]; unfold lift in *.
  - by injection E0 as <-.
  - injection Es as <- _. unfold mret, M_ret in E0. by injection E0 as <-.
Qed.

Lemma tracks_create_dataloaders `{Runtime} {T} module train_dir test_dir (ttf tetf : T)
    bs nw :
  tracks calls CRaised (create_dataloaders module train_dir test_dir ttf tetf bs nw).
Proof.
  unfold create_dataloaders.
  repeat first
    [ apply tracks_ret | apply ImageFolder_init_quiet | apply DataLoader_init_quiet
    | apply tracks_bind; [|intros ?] ].
Qed.

Section ModelErrors.
Context `{Torch} `{Utils}.

Lemma tracks_tcalled {A} c (body : M torch A) :
  (∀ e, c ≠ TRaised e) → (∀ s s' r, body s = (s', r) → tcalls s' = tcalls s) →
  tracks tcalls TRaised (tcalled c body).
Proof. intros Hc Hb. by apply (tracks_recorded tcalls TRaised tlog). Qed.

Lemma tracks_to d m : tracks tcalls TRaised (to d m).
Proof.
  apply tracks_tcalled; [done|]. intros s s' r. destruct d as [d|].
  - unfold_M. by destruct (available s d); intros [= <- _].
  - by intros [= <- _].
Qed.

Lemma tracks_vit_b_16 : tracks tcalls TRaised vit_b_16.
Proof. apply tracks_tcalled; [done|]. intros s s' r. unfold_M. by intros [= <- _]. Qed.

Lemma tracks_set_seeds : tracks tcalls TRaised set_seeds.
Proof. apply tracks_tcalled; [done|]. by intros s s' r [= <- _]. Qed.

Lemma tracks_nn_Linear i o : tracks tcalls TRaised (nn_Linear i o).
Proof.
  apply tracks_tcalled; [done|]. intros s s' r.
  destruct (negb _); [by intros [= <- _]|].
  destruct (_ || _); [by intros [= <- _]|]. unfold_M.
  destruct (reset_parameters (rng s) i o) as [[w b] g]. by intros [= <- _].
Qed.

Lemma tracks_create_model_baseline_vit out_feats device :
  tracks tcalls TRaised (create_model_baseline_vit out_feats device).
Proof.
  unfold create_model_baseline_vit.
  repeat first
    [ apply tracks_ret | apply tracks_to | apply tracks_vit_b_16 | apply tracks_set_seeds
    | apply tracks_nn_Linear
    | apply tracks_bind; [|intros ?] ].
Qed.

(** The calls of a run are the first calls of one fixed list, up to the
    one that raised. *)
Lemma create_model_baseline_vit_script out_feats device s s' r :
  create_model_baseline_vit out_feats device s = (s', r) →
  ∃ n : nat, (1 ≤ n ≤ 5)%nat
       ∧ tcalls s' = tcalls s
                     ++ take n [TVit; TTo device; TSetSeeds; TLinear 768 out_feats; TTo device]
                     ++ toutcome r
       ∧ (∀ m, r = inr m → n = 5%nat).
Proof.
  unfold create_model_baseline_vit. intros E.
  apply bind_inv in E as [(e & E & ->) | (s2 & m1 & E & E')].
  { apply bind_inv in E as [(e' & E & [= <-]) | (s1 & m0 & Ev & Et)].
    - apply vit_b_16_spec in E as (_ & _ & _ & _ & C1). exists 1%nat.
      split_and!; [lia | lia | done | done].
    - apply vit_b_16_spec in Ev as (_ & _ & _ & _ & C1).
      apply to_spec in Et as (_ & _ & _ & C2 & _). exists 2%nat.
      split_and!; [lia | lia | | done]. rewrite C2, C1. simpl. by rewrite <- !app_assoc. }
  apply bind_inv_inr in E as (s1 & m0 & Ev & Et).
  apply vit_b_16_spec in Ev as (_ & _ & _ & _ & C1).
  apply to_spec in Et as (_ & _ & _ & C2 & _).
  apply bind_inv in E' as [(e & E & ->) | (s3 & [] & Es & E')].
  { by apply set_seeds_spec in E as (? & _). }
  apply set_seeds_spec in Es as (_ & _ & _ & _ & C3).
  apply bind_inv in E' as [(e & E & ->) | (s5 & hd & E' & Er)].
  { apply bind_inv in E as [(e' & E & [= <-]) | (s4 & l & El & Et')].
    - apply nn_Linear_spec in E as (_ & _ & C4 & _). exists 4%nat.
      split_and!; [lia | lia | | done].
      rewrite C4, C3, C2, C1. simpl. by rewrite <- !app_assoc.
    - apply nn_Linear_spec in El as (_ & _ & C4 & _).
      apply to_spec in Et' as (_ & _ & _ & C5 & _). exists 5%nat.
      split_and!; [lia | lia | | done].
      rewrite C5, C4, C3, C2, C1. simpl. by rewrite <- !app_assoc. }
  apply bind_inv_inr in E' as (s4 & l & El & Et').
  apply nn_Linear_spec in El as (_ & _ & C4 & _).
  apply to_spec in Et' as (_ & _ & _ & C5 & _).
  injection Er as <- <-. exists 5%nat. split_and!; [lia | lia | | done].
  rewrite C5, C4, C3, C2, C1. simpl. by rewrite <- !app_assoc.
Qed.

Lemma int64_bounds n : int64 n = true ↔ (- 2 ^ 63 ≤ n < 2 ^ 63)%Z.
Proof.
  unfold int64. rewrite andb_true_iff, !bool_decide_eq_true. tauto.
Qed.

(** An [out_feats] that is no size reaches nn.Linear, which is what
    raises: RuntimeError for a negative one that fits in 64 bits, TypeError
    for one that does not fit. *)
Lemma create_model_baseline_vit_negative out_feats device s m0 :
  hub s = inr m0 → (∀ d, device = Some d → available s d = true) →
  (out_feats < 0 ∨ 2 ^ 63 ≤ out_feats)%Z →
  ∃ s' e, e = (if int64 out_feats then RuntimeError else TypeError)
          ∧ create_model_baseline_vit out_feats device s = (s', inl e)
          ∧ tcalls s' = tcalls s ++ [TVit; TTo device; TSetSeeds; TLinear 768 out_feats;
                                     TRaised e].
Proof.
  intros Hh Ha Ho.
  destruct (create_model_baseline_vit out_feats device s) as [s' r] eqn:E.
  assert (r = inl (if int64 out_feats then RuntimeError else TypeError)
          ∧ tcalls s' = tcalls s ++ [TVit; TTo device; TSetSeeds; TLinear 768 out_feats;
                                     TRaised (if int64 out_feats then RuntimeError
                                              else TypeError)]) as [-> ?];
    [|by exists s', (if int64 out_feats then RuntimeError else TypeError)].
  assert (∀ t t' l, nn_Linear 768 out_feats t = (t', inr l) → False) as Hno.
  { intros t t' l El. pose proof (nn_Linear_int64 _ _ _ _ _ El) as [_ H64%int64_bounds].
    apply nn_Linear_spec in El as (_ & _ & _ & _ & ? & _). lia. }
  unfold create_model_baseline_vit in E.
  apply bind_inv in E as [(e & E & ->) | (s2 & m1 & E & E')].
  { exfalso. apply bind_inv in E as [(e' & E & [= <-]) | (s1 & m' & Ev & Et)].
    - apply vit_b_16_spec in E as (Hr & _). congruence.
    - apply vit_b_16_spec in Ev as (_ & _ & _ & Hav & _).
      apply to_spec in Et as (_ & _ & _ & _ & _ & d0 & -> & Hd0).
      rewrite Hav, Ha in Hd0; done. }
  apply bind_inv_inr in E as (s1 & m' & Ev & Et).
  apply vit_b_16_spec in Ev as (_ & _ & _ & _ & C1).
  apply to_spec in Et as (_ & _ & _ & C2 & _).
  apply bind_inv in E' as [(e & E & ->) | (s3 & [] & Es & E')].
  { by apply set_seeds_spec in E as (? & _). }
  apply set_seeds_spec in Es as (_ & _ & _ & _ & C3).
  apply bind_inv in E' as [(e & E & ->) | (s5 & hd & E' & Er)].
  - apply bind_inv in E as [(e' & E & [= <-]) | (s4 & l & El & Et')].
    + apply nn_Linear_spec in E as (_ & _ & C4 & -> & _).
      change (int64 768 && int64 out_feats) with (int64 out_feats) in *.
      split; [done|]. rewrite C4, C3, C2, C1. simpl. by rewrite <- !app_assoc.
    + by apply Hno in El.
  - apply bind_inv_inr in E' as (s4 & l & El & Et'). by apply Hno in El.
Qed.

End ModelErrors.

(** C9. No function of the repository catches, retries, replaces or
    checks: in every run of [download_data], [create_dataloaders] and
    [create_model_baseline_vit] the record of calls holds at most one raise,
    it is the last entry, and its exception is the one the caller gets; a
    run that returns holds none. [create_model_baseline_vit] makes its calls
    in one fixed order whatever [out_feats] and [device] are, up to the one
    that raises, and an [out_feats] that is negative or too large for a size
    is handed to nn.Linear, whose error is the result: RuntimeError when the
    number fits in 64 bits, TypeError when it does not. *)
Theorem errors_propagate `{Runtime} `{Torch} `{Utils} {T : Type} :
  (∀ source destination remove_source,
     tracks calls CRaised (download_data source destination remove_source))
  ∧ (∀ module train_dir test_dir (train_transform test_transform : T) batch_size workers,
       tracks calls CRaised
         (create_dataloaders module train_dir test_dir train_transform test_transform
            batch_size workers))
  ∧ (∀ out_feats device, tracks tcalls TRaised (create_model_baseline_vit out_feats device))
  ∧ (∀ out_feats device s s' r,
       create_model_baseline_vit out_feats device s = (s', r) →
       ∃ n : nat, (1 ≤ n ≤ 5)%nat
            ∧ tcalls s' = tcalls s
                          ++ take n [TVit; TTo device; TSetSeeds; TLinear 768 out_feats;
                                     TTo device]
                          ++ toutcome r
            ∧ (∀ m, r = inr m → n = 5%nat))
  ∧ (∀ out_feats device s m0,
       hub s = inr m0 → (∀ d, device = Some d → available s d = true) →
       (out_feats < 0 ∨ 2 ^ 63 ≤ out_feats)%Z →
       ∃ s' e, e = (if int64 out_feats then RuntimeError else TypeError)
               ∧ create_model_baseline_vit out_feats device s = (s', inl e)
               ∧ tcalls s' = tcalls s ++ [TVit; TTo device; TSetSeeds;
                                          TLinear 768 out_feats; TRaised e]).
Proof.
  split_and!.
  - apply tracks_download_data.
  - apply tracks_create_dataloaders.
  - apply tracks_create_model_baseline_vit.
  - apply create_model_baseline_vit_script.
  - apply create_model_baseline_vit_negative.
Qed.

(** * Further properties *)

(** ** download_data *)

(** Runs the next step of a computation whose outcome is a hypothesis. *)
Ltac run_step :=
  first [ rewrite bind_assoc
        | erewrite bind_inr by eassumption
        | erewrite bind_inl by eassumption
        | erewrite bind_inr by (unfold print, modify; reflexivity) ].

Ltac enter_download Ei source destination :=
  unfold download_data;
  fold data_path; fold (image_path destination); fold (archive_path source);
  erewrite bind_inr by exact Ei;
  cbv iota.

(** X1. When the directory and the archive file could be made and the GET
    raises, [download_data] raises that exception at once: the archive
    file data/<name of source> is left behind empty (an older file of that
    name has lost its content), the directory exists, and nothing was
    written, extracted or removed. *)
Theorem download_data_failed_get `{Runtime} (source destination : string)
    (remove_source : bool) (s s0 s1 s2 s3 : state) (f : path * list string) (e : exn) :
  isdir s (image_path destination) = false →
  is_dir (image_path destination) s = (s0, inr false) →
  mkdir (image_path destination)
    (log (CPrint ("[INFO] Did not find " +:+ Path.to_string (image_path destination)
                  +:+ " directory, creating one...")) s0) = (s1, inr tt) →
  open_wb (archive_path source) s1 = (s2, inr f) →
  requests_get source s2 = (s3, inl e) →
  download_data source destination remove_source s = (s3, inl e)
  ∧ read_file s3 (archive_path source) = Some ""
  ∧ isdir s3 (image_path destination) = true
  ∧ calls s3 = calls s ++ [CIsDir (image_path destination);
                           CPrint ("[INFO] Did not find "
                                   +:+ Path.to_string (image_path destination)
                                   +:+ " directory, creating one...");
                           CMkdir (image_path destination); COpen (archive_path source);
                           CGet source; CRaised e].
Proof.
  intros Hd Ei Em Eo Eg. split.
  { enter_download Ei source destination. by repeat run_step. }
  apply is_dir_spec in Ei as (Ci & _).
  apply mkdir_spec in Em as (Cm & _ & Dm). specialize (Dm eq_refl).
  apply open_wb_spec in Eo as (Co & Go & Po). destruct (Po f eq_refl) as (_ & Hf2 & Hf3).
  apply requests_get_spec in Eg as (Cg & Gg & Fg & _).
  split_and!.
  - unfold read_file. by rewrite (resolve_mono _ _ _ _ Gg Hf2), Fg, Hf3.
  - eapply isdir_mono; [|exact Dm]. by etrans.
  - rewrite Cg, Co, Cm. simpl. rewrite Ci. simpl. by rewrite <- !app_assoc.
Qed.

Lemma download_data_failed_get_witness :
  let source := "https://example.com/data/food.zip" in
  let t0 := (is_dir (image_path "food") machine_failing_get).1 in
  let s0 := log (CPrint "[INFO] Did not find data/food directory, creating one...") t0 in
  let s1 := (mkdir (image_path "food") s0).1 in
  let r2 := open_wb (archive_path source) s1 in
  let s3 := (requests_get source r2.1).1 in
  read_file machine_failing_get (archive_path source) = Some "an older archive"
  ∧ download_data (H := toy_runtime) source "food" true machine_failing_get
    = (s3, inl PermissionError)
  ∧ read_file s3 (archive_path source) = Some ""
  ∧ isdir s3 (image_path "food") = true
  ∧ calls s3 = calls machine_failing_get
               ++ [CIsDir (image_path "food");
                   CPrint ("[INFO] Did not find " +:+ Path.to_string (image_path "food")
                           +:+ " directory, creating one...");
                   CMkdir (image_path "food"); COpen (archive_path source);
                   CGet source; CRaised PermissionError].
Proof.
  intros source t0 s0 s1 r2 s3. split; [by vm_compute|].
  assert (∃ f, r2.2 = inr f) as (f & Hf) by (vm_compute; by eexists).
  refine (download_data_failed_get (H := toy_runtime) source "food" true machine_failing_get
            t0 s1 r2.1 s3 f PermissionError eq_refl _ _ _ _).
  - by_running.
  - by_running.
  - exact (run_eq _ _ _ Hf).
  - by_running.
Defined.

Lemma open_wb_handle p s s' f : open_wb p s = (s', inr f) → f.2 ≠ [].
Proof.
  intros (s1 & E & _)%called_inv. apply bind_inv_inr in E as (s2 & k & E & [= _ <-]).
  apply sys_open_wb_spec in E as [_ [(? & ? & _) | (k' & [= <-] & _ & Hd & _)]]; [done|].
  simpl. by intros ->.
Qed.

(** [ZipFile] on a file that is not a zip archive, with no failure from
    outside. *)
Lemma ZipFile_not_a_zip `{Runtime} p s k body :
  resolve s p = inr k → k ≠ [] → fs s !! k = Some (File body) → faults s = [] →
  zip_decode body = None →
  ZipFile p s = (log (CRaised BadZipFile) (log (CZipFile p) s), inl BadZipFile).
Proof.
  intros Hr Hk Hf Hfa Hz. unfold ZipFile, called.
  erewrite bind_inr; last by reflexivity.
  unfold try_except.
  assert ((syscall;;
           k ← lift (λ s, resolve s p);
           lift (λ s, if is_dir_at (fs s) k then inl IsADirectoryError
                      else match fs s !! k with
                           | Some (File body) =>
                               match zip_decode body with
                               | Some members => inr members
                               | None => inl BadZipFile
                               end
                           | _ => inl FileNotFoundError
                           end)) (log (CZipFile p) s)
          = (log (CZipFile p) s, inl BadZipFile)) as ->; [|done].
  erewrite bind_inr; last by (unfold syscall; simpl; rewrite Hfa).
  erewrite bind_inr; last by (unfold lift; f_equal; exact Hr).
  unfold lift. simpl. f_equal.
  assert (is_dir_at (fs s) k = false) as ->.
  { destruct (is_dir_at (fs s) k) eqn:Hd; [|done].
    apply is_dir_at_lookup in Hd as [? | ?]; congruence. }
  by rewrite Hf, Hz.
Qed.

(** X2. When the response to the GET is not a zip archive (no status is
    looked at: an error page is a response like any other) and nothing
    fails from outside while it is opened, [download_data] raises
    BadZipFile. The response stays on disk as data/<name of source>, also
    when [remove_source] is true, the directory stays, nothing was
    extracted or removed. *)
Theorem download_data_not_a_zip `{Runtime} (source destination : string)
    (remove_source : bool) (s s0 s1 s2 s3 s4 : state) (f : path * list string)
    (body : bytes) :
  isdir s (image_path destination) = false →
  is_dir (image_path destination) s = (s0, inr false) →
  mkdir (image_path destination)
    (log (CPrint ("[INFO] Did not find " +:+ Path.to_string (image_path destination)
                  +:+ " directory, creating one...")) s0) = (s1, inr tt) →
  open_wb (archive_path source) s1 = (s2, inr f) →
  requests_get source s2 = (s3, inr body) →
  write f body
    (log (CPrint ("[INFO] Downloading " +:+ Path.name (Path.of_string source) +:+ " from "
                  +:+ source +:+ "...")) s3) = (s4, inr tt) →
  faults s4 = [] →
  zip_decode body = None →
  ∃ s5, download_data source destination remove_source s = (s5, inl BadZipFile)
        ∧ fs s5 = fs s4
        ∧ read_file s5 (archive_path source) = Some body
        ∧ isdir s5 (image_path destination) = true
        ∧ ∃ l1 l2, calls s5 = calls s ++ [CIsDir (image_path destination);
                                          CPrint l1; CMkdir (image_path destination);
                                          COpen (archive_path source); CGet source;
                                          CPrint l2; CWrite (archive_path source) body;
                                          CZipFile (archive_path source);
                                          CRaised BadZipFile].
Proof.
  intros Hd Ei Em Eo Eg Ew Hfa Hz.
  pose proof (is_dir_spec _ _ _ _ Ei) as (Ci & _).
  pose proof (open_wb_handle _ _ _ _ Eo) as Hk.
  pose proof (requests_get_spec _ _ _ _ Eg) as (Cg & Gg & Fg & _).
  pose proof (archive_written _ _ _ _ _ _ _ _ Eo Fg (proj1 Gg) Ew) as Hread.
  pose proof (mkdir_spec _ _ _ _ Em) as (Cm & _ & Dm). specialize (Dm eq_refl).
  pose proof (open_wb_spec _ _ _ _ Eo) as (Co & Go & Po).
  destruct (Po f eq_refl) as (Hf1 & Hf2 & _).
  pose proof (write_spec _ _ _ _ _ Ew) as (Cw & Gw & _ & _).
  assert (resolve s4 (archive_path source) = inr f.2) as Hr4.
  { eapply resolve_mono; [|exact Hf2]. etrans; [exact Gg|]. etrans; [|exact Gw].
    apply grows_log. }
  assert (fs s4 !! f.2 = Some (File body)) as Hf4.
  { unfold read_file in Hread. rewrite Hr4 in Hread.
    by destruct (fs s4 !! f.2) as [[|b]|]; simplify_eq. }
  pose proof (ZipFile_not_a_zip _ _ _ _ Hr4 Hk Hf4 Hfa Hz) as Ez.
  eexists. split; [enter_download Ei source destination; by repeat run_step|].
  split_and!.
  - done.
  - unfold read_file. change (resolve (log ?c (log ?c' s4)) ?p) with (resolve s4 p).
    simpl. by rewrite Hr4, Hf4.
  - eapply (isdir_mono s1); [|exact Dm].
    etrans; [exact Go|]. etrans; [exact Gg|]. etrans; [apply grows_log|].
    etrans; [exact Gw|]. etrans; apply grows_log.
  - eexists _, _. simpl. rewrite Cw, Hf1. simpl. rewrite Cg, Co, Cm. simpl.
    rewrite Ci. simpl. by rewrite <- !app_assoc.
Qed.

Lemma download_data_not_a_zip_witness :
  let source := "https://example.com/gone.zip" in
  let body := "<html>404 Not Found</html>" in
  let t0 := (is_dir (image_path "food") machine_serving_html).1 in
  let s0 := log (CPrint "[INFO] Did not find data/food directory, creating one...") t0 in
  let s1 := (mkdir (image_path "food") s0).1 in
  let r2 := open_wb (archive_path source) s1 in
  let s3 := (requests_get source r2.1).1 in
  ∃ f s4,
    write f body (log (CPrint "[INFO] Downloading gone.zip from https://example.com/gone.zip...")
                    s3) = (s4, inr tt)
    ∧ ∃ s5, download_data (H := toy_runtime) source "food" true machine_serving_html
            = (s5, inl BadZipFile)
        ∧ fs s5 = fs s4
        ∧ read_file s5 (archive_path source) = Some body
        ∧ isdir s5 (image_path "food") = true
        ∧ ∃ l1 l2, calls s5 = calls machine_serving_html
                              ++ [CIsDir (image_path "food");
                                  CPrint l1; CMkdir (image_path "food");
                                  COpen (archive_path source); CGet source;
                                  CPrint l2; CWrite (archive_path source) body;
                                  CZipFile (archive_path source); CRaised BadZipFile].
Proof.
  intros source body t0 s0 s1 r2 s3.
  assert (∃ f, r2.2 = inr f) as (f & Hf) by (vm_compute; by eexists).
  set (r4 := write f body
               (log (CPrint "[INFO] Downloading gone.zip from https://example.com/gone.zip...")
                  s3)).
  assert (r4 = (r4.1, inr tt)) as E4.
  { apply run_eq. assert (r2.2 = inr f) as Hf' by exact Hf. clear Hf.
    vm_compute in Hf'. injection Hf' as <-. by vm_compute. }
  exists f, r4.1. split; [exact E4|].
  refine (download_data_not_a_zip (H := toy_runtime) source "food" true machine_serving_html
            t0 s1 r2.1 s3 r4.1 f body eq_refl _ _ _ _ E4 _ eq_refl).
  - by_running.
  - by_running.
  - exact (run_eq _ _ _ Hf).
  - by_running.
  - assert (r2.2 = inr f) as Hf' by exact Hf. vm_compute in Hf'. injection Hf' as <-.
    by vm_compute.
Defined.

(** [os.mkdir] on something that is there, with no failure from outside. *)
Lemma os_mkdir_exists p s :
  exists_ s p = true → faults s = [] → os_mkdir p s = (s, inl FileExistsError).
Proof.
  intros Hex Hfa. unfold exists_ in Hex. destruct (resolve s p) as [|k] eqn:Hr; [done|].
  unfold os_mkdir.
  erewrite bind_inr; last by (unfold syscall; rewrite Hfa).
  erewrite bind_inr; last by (unfold lift; rewrite Hr).
  erewrite bind_inr; last by (unfold gets; rewrite Hex).
  done.
Qed.

Lemma stat_is_dir_quiet p s : faults s = [] → stat_is_dir p s = (s, inr (isdir s p)).
Proof.
  intros Hfa. unfold stat_is_dir, try_except, syscall, mbind, M_bind, gets.
  by rewrite Hfa.
Qed.

Lemma mkdir_parents_exists root rparts s :
  exists_ s (Path.Mk root (rev rparts)) = true →
  isdir s (Path.Mk root (rev rparts)) = false →
  faults s = [] →
  mkdir_parents root rparts s = (s, inl FileExistsError).
Proof.
  intros Hex Hd Hfa.
  assert (try_except (os_mkdir (Path.Mk root (rev rparts))) is_OSError
            (λ e, if decide (e = FileNotFoundError) then raise e
                  else d ← stat_is_dir (Path.Mk root (rev rparts));
                       if d : bool then mret tt else raise e) s
          = (s, inl FileExistsError)) as E.
  { unfold try_except. rewrite os_mkdir_exists by done. simpl.
    unfold mbind, M_bind. rewrite stat_is_dir_quiet by done. by rewrite Hd. }
  destruct rparts as [|c rp]; [exact E|].
  unfold mkdir_parents; fold mkdir_parents. unfold try_except in *.
  rewrite os_mkdir_exists in * by done. exact E.
Qed.

(** X3. When data/<destination> is there but is not a directory (a regular
    file of that name) and nothing fails from outside, [download_data]
    raises FileExistsError from its mkdir: exist_ok only accepts a
    directory. Nothing is requested, opened or written, and the file
    system is untouched. *)
Theorem download_data_destination_is_file `{Runtime} (source destination : string)
    (remove_source : bool) (s : state) :
  exists_ s (image_path destination) = true →
  isdir s (image_path destination) = false →
  faults s = [] →
  ∃ s', download_data source destination remove_source s = (s', inl FileExistsError)
        ∧ fs s' = fs s
        ∧ calls s' = calls s
            ++ [CIsDir (image_path destination);
                CPrint ("[INFO] Did not find " +:+ Path.to_string (image_path destination)
                        +:+ " directory, creating one...");
                CMkdir (image_path destination); CRaised FileExistsError].
Proof.
  intros Hex Hd Hfa.
  set (l := "[INFO] Did not find " +:+ Path.to_string (image_path destination)
            +:+ " directory, creating one...").
  destruct (is_dir_run (image_path destination) s) as [s0 Ei].
  assert (next_fault s = None) as Hn by (unfold next_fault; by rewrite Hfa).
  rewrite Hn, Hd in Ei.
  pose proof (is_dir_spec _ _ _ _ Ei) as (Ci & _ & Fi & Wi & _ & Ai & _).
  rewrite Hfa in Ai. simpl in Ai.
  assert (exists_ s0 (image_path destination) = true) as Hex0.
  { unfold exists_ in *. by rewrite (resolve_ext s s0), Fi by done. }
  assert (isdir s0 (image_path destination) = false) as Hd0
    by by rewrite (isdir_ext s s0).
  assert (mkdir (image_path destination) (log (CPrint l) s0)
          = (log (CRaised FileExistsError) (log (CMkdir (image_path destination))
                                              (log (CPrint l) s0)),
             inl FileExistsError)) as Em.
  { unfold mkdir, called. erewrite bind_inr; last by reflexivity.
    unfold try_except at 1. rewrite mkdir_parents_exists; [done | | |done].
    - rewrite rev_involutive. by destruct (image_path destination).
    - rewrite rev_involutive. by destruct (image_path destination). }
  eexists. split; [enter_download Ei source destination; by repeat run_step|].
  split; [done|]. simpl. rewrite Ci. simpl. by rewrite <- !app_assoc.
Qed.

Lemma download_data_destination_is_file_witness :
  ∃ s', download_data (H := toy_runtime) "https://example.com/data/food.zip" "food" true
          machine_with_food_file = (s', inl FileExistsError)
        ∧ fs s' = fs machine_with_food_file
        ∧ calls s' = calls machine_with_food_file
            ++ [CIsDir (image_path "food");
                CPrint ("[INFO] Did not find " +:+ Path.to_string (image_path "food")
                        +:+ " directory, creating one...");
                CMkdir (image_path "food"); CRaised FileExistsError].
Proof.
  apply (download_data_destination_is_file (H := toy_runtime)); by vm_compute.
Defined.



(** ** What download_data leaves alone *)

Section Confined.
Context (source destination : string).

#[local] Instance confined_refl : Reflexive (confined source destination).
Proof. intros s. split; [done|]. by intros k _. Qed.

Lemma apart_mono s s' k :
  grows s s' → apart source destination s' k → apart source destination s k.
Proof.
  intros Hg [Ha Hi]. split.
  - intros Hr. apply Ha. by eapply resolve_mono.
  - intros kI Hr. apply Hi. by eapply resolve_mono.
Qed.

#[local] Instance confined_trans : Transitive (confined source destination).
Proof.
  intros s1 s2 s3 [G12 K12] [G23 K23]. split; [by etrans|].
  intros k Hk. etrans; [|by apply K23]. apply K12. by eapply apart_mono.
Qed.

Lemma confined_same_fs s s' :
  grows s s' → fs s' = fs s → confined source destination s s'.
Proof. intros Hg Hfs. split; [done|]. intros k _. by apply keeps_same. Qed.

Lemma confined_log c s : confined source destination s (log c s).
Proof. apply confined_same_fs; [apply grows_log | done]. Qed.

Lemma confined_mkdir p s s' r : mkdir p s = (s', r) → confined source destination s s'.
Proof.
  intros E. pose proof (mkdir_spec _ _ _ _ E) as (_ & Hg & _). split; [done|].
  apply called_inv in E as (s1 & E & ->).
  apply respects_mkdir_parents in E as [_ Hsub].
  intros k _ v Hv.
  assert (fs s1 !! k = Some v) as Hv1 by (eapply lookup_weaken; [exact Hv | exact Hsub]).
  by destruct r.
Qed.

Lemma confined_open_wb s s' r :
  open_wb (archive_path source) s = (s', r) → confined source destination s s'.
Proof.
  intros E. pose proof (open_wb_spec _ _ _ _ E) as (_ & Hg & _). split; [done|].
  intros k [Ha _].
  apply called_spec in E as (s1 & E & _ & _ & Hg1 & Hfs); [|by respects_tac..].
  assert (keeps k (log (COpen (archive_path source)) s) s1) as Hk.
  { apply bind_inv in E as [(e & E & _) | (s2 & f & E & [= <- _])].
    - eapply sys_open_wb_keeps; [done|]. intros Hr. apply Ha.
      eapply resolve_mono; [|exact Hr]. etrans; [|exact Hg1].
      by eapply grows_sys_open_wb.
    - eapply sys_open_wb_keeps; [done|]. intros Hr. apply Ha.
      eapply resolve_mono; [|exact Hr]. etrans; [|exact Hg1].
      by eapply grows_sys_open_wb. }
  intros v Hv. rewrite Hfs. by apply Hk.
Qed.

Lemma confined_write f body s s' r :
  write f body s = (s', r) → resolve s (archive_path source) = inr f.2 →
  confined source destination s s'.
Proof.
  intros E Hr. pose proof (write_spec _ _ _ _ _ E) as (_ & Hg & Hk & _). split; [done|].
  intros k [Ha _]. apply Hk. intros ->. apply Ha. by eapply resolve_mono.
Qed.

Lemma confined_extractall members s s' r :
  isdir s (image_path destination) = true →
  extractall members (image_path destination) s = (s', r) →
  confined source destination s s'.
Proof.
  intros Hd E. pose proof (extractall_spec _ _ _ _ _ E) as (_ & Hg & s1 & Ex & Hg1 & Hfs).
  split; [done|]. intros k [_ Hi].
  apply isdir_resolve in Hd as [kI HkI].
  intros v Hv. rewrite Hfs.
  eapply (extract_members_keeps _ _ _ _ _ kI k Ex); [exact HkI | | exact Hv].
  apply Forall_forall. intros e _. right. intros ->.
  apply (Hi kI); [exact (resolve_mono _ _ _ _ Hg HkI) | by eexists].
Qed.

Lemma confined_os_remove s s' r :
  os_remove (archive_path source) s = (s', r) → confined source destination s s'.
Proof.
  intros E. pose proof (os_remove_spec _ _ _ _ E) as (_ & Hg & Hk & _). split; [done|].
  intros k [Ha _]. apply Hk. intros Hr. apply Ha. by eapply resolve_mono.
Qed.

Lemma confined_download_data `{Runtime} remove_source s s' r :
  download_data source destination remove_source s = (s', r) →
  confined source destination s s'.
Proof.
  intros E. unfold download_data in E.
  fold data_path in E. fold (image_path destination) in E. fold (archive_path source) in E.
  assert (∀ t t' q, is_dir (image_path destination) t = (t', q) →
            confined source destination t t') as Htest.
  { intros t t' q (_ & Gi & Fi & _)%is_dir_spec. by apply confined_same_fs. }
  apply bind_inv in E as [(e & Ei & _) | (s0 & d & Ei & E)]; [by eapply Htest|].
  etrans; [by eapply Htest|]. clear Htest Ei s. rename s0 into s.
  destruct d.
  { apply bind_inv in E as [(e & [=] & _) | (s7 & [] & [= <-] & [= <- _])].
    apply confined_log. }
  assert (∃ r0 : exn + (),
            (print ("[INFO] Did not find " +:+ Path.to_string (image_path destination)
                    +:+ " directory, creating one...");;
             mkdir (image_path destination);;
             (f ← open_wb (archive_path source);
              request ← requests_get source;
              print ("[INFO] Downloading " +:+ Path.name (Path.of_string source) +:+ " from "
                     +:+ source +:+ "...");;
              write f request);;
             (zip_ref ← ZipFile (archive_path source);
              print ("[INFO] Unzipping " +:+ Path.name (Path.of_string source) +:+ " data...");;
              extractall zip_ref (image_path destination));;
             (if remove_source then os_remove (archive_path source) else mret tt)) s
            = (s', r0)) as [r0 E0].
  { apply bind_inv in E as [(e & E & _) | (s7 & [] & E & [= <- _])]; by eexists. }
  clear E.
  apply bind_inv in E0 as [(e & [=] & _) | (s0 & [] & [= <-] & E)].
  etrans; [apply confined_log|].
  apply bind_inv in E as [(e & E & _) | (s1 & [] & Em & E)]; [by eapply confined_mkdir|].
  etrans; [by eapply confined_mkdir|].
  pose proof (mkdir_spec _ _ _ _ Em) as (_ & _ & Dm). specialize (Dm eq_refl). clear Em.
  (* the download *)
  assert (∀ t t' (q : exn + ()),
            (f ← open_wb (archive_path source);
             request ← requests_get source;
             print ("[INFO] Downloading " +:+ Path.name (Path.of_string source) +:+ " from "
                    +:+ source +:+ "...");;
             write f request) t = (t', q) → confined source destination t t') as Hblock1.
  { intros t t' q Eb.
    apply bind_inv in Eb as [(e & Eo & _) | (t2 & f & Eo & Eb)]; [by eapply confined_open_wb|].
    etrans; [by eapply confined_open_wb|].
    pose proof (open_wb_spec _ _ _ _ Eo) as (_ & _ & Po).
    destruct (Po f eq_refl) as (_ & Hf2 & _).
    apply bind_inv in Eb as [(e & Eg & _) | (t3 & body & Eg & Eb)].
    { apply requests_get_spec in Eg as (_ & Gg & Fg & _). by apply confined_same_fs. }
    pose proof (requests_get_spec _ _ _ _ Eg) as (_ & Gg & Fg & _).
    etrans; [by apply confined_same_fs|].
    apply bind_inv in Eb as [(e & [=] & _) | (t3' & [] & [= <-] & Ew)].
    etrans; [apply confined_log|].
    eapply confined_write; [exact Ew|].
    eapply resolve_mono; [|exact Hf2]. etrans; [exact Gg | apply grows_log]. }
  (* the extraction *)
  assert (∀ t t' (q : exn + ()),
            isdir t (image_path destination) = true →
            (zip_ref ← ZipFile (archive_path source);
             print ("[INFO] Unzipping " +:+ Path.name (Path.of_string source) +:+ " data...");;
             extractall zip_ref (image_path destination)) t = (t', q) →
            confined source destination t t') as Hblock2.
  { intros t t' q Ht Eb.
    apply bind_inv in Eb as [(e & Ez & _) | (t2 & members & Ez & Eb)].
    { apply ZipFile_spec in Ez as (_ & Gz & Fz & _). by apply confined_same_fs. }
    pose proof (ZipFile_spec _ _ _ _ Ez) as (_ & Gz & Fz & _).
    etrans; [by apply confined_same_fs|].
    apply bind_inv in Eb as [(e & [=] & _) | (t2' & [] & [= <-] & Ex)].
    etrans; [apply confined_log|].
    eapply confined_extractall; [|exact Ex].
    eapply isdir_mono; [|exact Ht]. etrans; [exact Gz | apply grows_log]. }
  apply bind_inv in E as [(e & E & _) | (s4 & [] & E1 & E)]; [by eapply Hblock1|].
  pose proof (Hblock1 _ _ _ E1) as C1.
  etrans; [exact C1|].
  assert (isdir s4 (image_path destination) = true) as D4
    by (eapply isdir_mono; [apply C1 | exact Dm]).
  apply bind_inv in E as [(e & E & _) | (s6 & [] & E2 & E)]; [by eapply Hblock2|].
  etrans; [by eapply Hblock2|].
  destruct remove_source.
  - by eapply confined_os_remove.
  - injection E as <- _. reflexivity.
Qed.

End Confined.

(** X5. [download_data] is confined to its archive file and its
    directory. In every run, returning or raising, whatever is in the file
    system before the call is there afterwards, unchanged, unless it is at
    the location of data/<name of source> or inside the directory
    data/<destination> (the locations the two paths have when the call
    ends). *)
Theorem download_data_confined `{Runtime} (source destination : string)
    (remove_source : bool) (s s' : state) (r : exn + path) (k : list string) (v : node) :
  download_data source destination remove_source s = (s', r) →
  fs s !! k = Some v →
  resolve s' (archive_path source) ≠ inr k →
  (∀ kI, resolve s' (image_path destination) = inr kI → ¬ kI `prefix_of` k) →
  fs s' !! k = Some v.
Proof.
  intros E Hv Ha Hi. apply confined_download_data in E as [_ Hk].
  by apply (Hk k).
Qed.

Lemma download_data_confined_witness :
  let run := download_data (H := runtime_with_dotdot) "https://example.com/up.zip" "food" true
               machine_with_notes in
  fs machine_with_notes !! ["home"; "notes.txt"] = Some (File "mine")
  ∧ run.2 = inr (image_path "food")
  ∧ read_file run.1 (member_path (image_path "food")
                       {| filename := "../../notes.txt"; data := "theirs" |}) = Some "theirs"
  ∧ fs run.1 !! ["home"; "notes.txt"] = Some (File "mine").
Proof.
  intros run. split; [by vm_compute|]. split; [by vm_compute|]. split; [by vm_compute|].
  refine (download_data_confined (H := runtime_with_dotdot) _ "food" true machine_with_notes
            run.1 run.2 ["home"; "notes.txt"] (File "mine") _ _ _ _).
  - apply surjective_pairing.
  - by vm_compute.
  - vm_compute. by intros [=].
  - intros kI. vm_compute. intros [= <-] [x [=]].
Defined.

(** ** create_dataloaders *)

Lemma ImageFolder_init_root `{Runtime} {T} dir (tf : T) s s' d :
  ImageFolder_init dir tf s = (s', inr d) → root d = expanduser dir.
Proof.
  intros (s1 & E & _)%called_inv.
  apply bind_inv_inr in E as (s2 & cs & _ & E).
  apply bind_inv_inr in E as (s3 & ss & _ & E).
  unfold mret, M_ret in E. by injection E as _ <-.
Qed.

(** X6. Each loader [create_dataloaders] returns is over its own
    directory with its own transform: the training dataset has
    [train_transform] and the files found under [train_dir], the testing
    dataset [test_transform] and the files found under [test_dir], both
    as the file system is when the call is made. Both loaders have the
    batch size given, which is positive, the training dataset is not
    empty, and the call has written nothing. *)
Theorem create_dataloaders_datasets `{Runtime} {T} (module : data_setup)
    (train_dir test_dir : string) (train_transform test_transform : T) (batch_size0 : Z)
    (workers : option (option Z)) (s s' : state) (tr te : DataLoader T)
    (names : list string) :
  create_dataloaders module train_dir test_dir train_transform test_transform batch_size0
    workers s = (s', inr (tr, te, names)) →
  transform (dataset tr) = train_transform ∧ transform (dataset te) = test_transform
  ∧ root (dataset tr) = expanduser train_dir ∧ root (dataset te) = expanduser test_dir
  ∧ batch_size tr = batch_size0 ∧ batch_size te = batch_size0 ∧ (0 < batch_size0)%Z
  ∧ samples (dataset tr) ≠ []
  ∧ fs s' = fs s
  ∧ ∃ kt ke,
      resolve s (Path.of_string (expanduser train_dir)) = inr kt
      ∧ resolve s (Path.of_string (expanduser test_dir)) = inr ke
      ∧ make_dataset (fs s) kt (classes (dataset tr)) = inr (samples (dataset tr))
      ∧ make_dataset (fs s) ke (classes (dataset te)) = inr (samples (dataset te)).
Proof.
  intros (td & ted & s1 & s2 & s3 & E1 & E2 & E3 & E4 & ->)%create_dataloaders_inv.
  pose proof (ImageFolder_init_root _ _ _ _ _ E1) as R1.
  pose proof (ImageFolder_init_root _ _ _ _ _ E2) as R2.
  apply ImageFolder_init_spec in E1 as (F1 & W1 & _ & _ & _ & D1).
  apply ImageFolder_init_spec in E2 as (F2 & W2 & _ & _ & _ & D2).
  apply DataLoader_init_spec in E3 as (F3 & _ & _ & _ & _ & D3).
  apply DataLoader_init_spec in E4 as (F4 & _ & _ & _ & _ & D4).
  destruct (D1 td eq_refl) as (T1 & kt & Hkt & _ & _ & _ & M1).
  destruct (D2 ted eq_refl) as (T2 & ke & Hke & _ & _ & _ & M2).
  destruct (D3 tr eq_refl) as (n & _ & _ & Hbs & Hne & ->).
  destruct (D4 te eq_refl) as (n' & _ & _ & _ & _ & ->). simpl.
  split_and!; try done.
  - by apply Hne.
  - by rewrite F4, F3, F2, F1.
  - exists kt, ke. split_and!; try done.
    + rewrite <- Hke. symmetry. by apply resolve_ext.
    + by rewrite <- F1.
Qed.

Lemma create_dataloaders_datasets_witness :
  let run := create_dataloaders (H := toy_runtime) (T := string) {| NUM_WORKERS := Some 8%Z |}
               "data/food" "data/food" "train_tf" "test_tf" 32 None machine_with_food in
  ∃ tr te names, run = (run.1, inr (tr, te, names))
  ∧ transform (dataset tr) = "train_tf" ∧ transform (dataset te) = "test_tf"
  ∧ root (dataset tr) = "data/food" ∧ root (dataset te) = "data/food"
  ∧ batch_size tr = 32%Z ∧ batch_size te = 32%Z ∧ (0 < 32)%Z
  ∧ samples (dataset tr) ≠ []
  ∧ fs run.1 = fs machine_with_food
  ∧ ∃ kt ke,
      resolve machine_with_food (Path.of_string "data/food") = inr kt
      ∧ resolve machine_with_food (Path.of_string "data/food") = inr ke
      ∧ make_dataset (Runtime := toy_runtime) (fs machine_with_food) kt (classes (dataset tr))
        = inr (samples (dataset tr))
      ∧ make_dataset (Runtime := toy_runtime) (fs machine_with_food) ke (classes (dataset te))
        = inr (samples (dataset te)).
Proof.
  intros run.
  assert (∃ tr te names, run.2 = inr (tr, te, names)) as (tr & te & names & H2)
    by (vm_compute; by eexists _, _, _).
  pose proof (run_eq _ _ _ H2) as Hrun.
  exists tr, te, names. split; [exact Hrun|].
  exact (create_dataloaders_datasets (H := toy_runtime) _ _ _ _ _ _ _ _ _ _ _ _ Hrun).
Defined.

(** X7. [NUM_WORKERS] is whatever os.cpu_count() gave, and that can be
    None. Then a call that leaves [num_workers] out scans both directories
    and raises TypeError when it constructs the training loader, whatever
    the batch size; no loader is returned. *)
Theorem create_dataloaders_no_cpu_count `{Runtime} {T} (s0 s0' : state) (module : data_setup)
    (train_dir test_dir : string) (train_transform test_transform : T) (batch_size0 : Z)
    (s s1 s2 : state) (td ted : ImageFolder T) :
  import_data_setup s0 = (s0', inr module) →
  cpus s0 = None →
  ImageFolder_init train_dir train_transform s = (s1, inr td) →
  ImageFolder_init test_dir test_transform s1 = (s2, inr ted) →
  ∃ s', create_dataloaders module train_dir test_dir train_transform test_transform
          batch_size0 None s = (s', inl TypeError)
        ∧ fs s' = fs s
        ∧ calls s' = calls s ++ [CImageFolder train_dir; CImageFolder test_dir;
                                 CDataLoader batch_size0 true None true; CRaised TypeError].
Proof.
  intros Ei Hc E1 E2.
  assert (NUM_WORKERS module = None) as Hm.
  { unfold import_data_setup in Ei. unfold_M. by simplify_eq. }
  unfold create_dataloaders. simpl default. rewrite Hm.
  erewrite bind_inr by exact E1. erewrite bind_inr by exact E2.
  apply ImageFolder_init_spec in E1 as (F1 & _ & _ & _ & C1 & _).
  apply ImageFolder_init_spec in E2 as (F2 & _ & _ & _ & C2 & _).
  eexists. split; [by erewrite bind_inl by reflexivity|].
  simpl. split; [by rewrite F2, F1|].
  rewrite C2, C1. simpl. by rewrite <- !app_assoc.
Qed.

Lemma create_dataloaders_no_cpu_count_witness :
  let unknown := {| fs := fs machine_with_food; cwd := cwd machine_with_food;
                    net := net machine_with_food; cpus := None;
                    faults := []; calls := [] |} in
  let r1 := ImageFolder_init (H := toy_runtime) "data/food" "train_tf" machine_with_food in
  let r2 := ImageFolder_init (H := toy_runtime) "data/food" "test_tf" r1.1 in
  ∃ td ted,
    r1 = (r1.1, inr td) ∧ r2 = (r2.1, inr ted)
    ∧ ∃ s', create_dataloaders (H := toy_runtime) {| NUM_WORKERS := None |} "data/food"
              "data/food" "train_tf" "test_tf" 32 None machine_with_food
            = (s', inl TypeError)
        ∧ fs s' = fs machine_with_food
        ∧ calls s' = calls machine_with_food
                     ++ [CImageFolder "data/food"; CImageFolder "data/food";
                         CDataLoader 32 true None true; CRaised TypeError].
Proof.
  intros unknown r1 r2.
  assert (∃ td, r1.2 = inr td) as (td & H1) by (vm_compute; by eexists).
  assert (∃ ted, r2.2 = inr ted) as (ted & H2) by (vm_compute; by eexists).
  exists td, ted. split; [exact (run_eq _ _ _ H1)|]. split; [exact (run_eq _ _ _ H2)|].
  exact (create_dataloaders_no_cpu_count (H := toy_runtime) unknown unknown
           {| NUM_WORKERS := None |} "data/food" "data/food" "train_tf" "test_tf" 32
           machine_with_food r1.1 r2.1 td ted eq_refl eq_refl
           (run_eq _ _ _ H1) (run_eq _ _ _ H2)).
Defined.

Lemma scandir_dirs_nil m k : (∀ n, m !! (k ++ [n]) ≠ Some Dir) → scandir_dirs m k = [].
Proof.
  intros Hno. destruct (scandir_dirs m k) as [|n l] eqn:Hs; [done|].
  exfalso. apply (Hno n), elem_of_scandir_dirs. rewrite Hs. by left.
Qed.

(** X8. A training directory without a subdirectory has no class: the
    call raises FileNotFoundError from the first ImageFolder, before the
    testing directory is looked at and before any loader is made. *)
Theorem create_dataloaders_no_classes `{Runtime} {T} (module : data_setup)
    (train_dir test_dir : string) (train_transform test_transform : T) (batch_size0 : Z)
    (workers : option (option Z)) (s : state) (k : list string) :
  resolve s (Path.of_string (expanduser train_dir)) = inr k →
  is_dir_at (fs s) k = true →
  (∀ n, fs s !! (k ++ [n]) ≠ Some Dir) →
  ∃ s', create_dataloaders module train_dir test_dir train_transform test_transform
          batch_size0 workers s = (s', inl FileNotFoundError)
        ∧ fs s' = fs s
        ∧ calls s' = calls s ++ [CImageFolder train_dir; CRaised FileNotFoundError].
Proof.
  intros Hk Hd Hno.
  assert (∀ t, fs t = fs s → cwd t = cwd s →
            find_classes (expanduser train_dir) t = (t, inl FileNotFoundError)) as Hfc.
  { intros t Hfs Hcwd. unfold find_classes. case_decide.
    - by erewrite bind_inl by reflexivity.
    - erewrite bind_inr by reflexivity.
      erewrite bind_inr; last by (unfold lift; rewrite (resolve_ext s t) by done; rewrite Hk).
      unfold lift. by rewrite Hfs, Hd, scandir_dirs_nil. }
  assert (ImageFolder_init train_dir train_transform s
          = (log (CRaised FileNotFoundError) (log (CImageFolder train_dir) s),
             inl FileNotFoundError)) as E1.
  { unfold ImageFolder_init, called. erewrite bind_inr by reflexivity.
    unfold try_except at 1. erewrite bind_inl; last by apply Hfc. done. }
  unfold create_dataloaders. erewrite bind_inl by exact E1.
  eexists. split; [done|]. split; [done|]. simpl. by rewrite <- !app_assoc.
Qed.

Lemma create_dataloaders_no_classes_witness :
  ∃ s', create_dataloaders (H := toy_runtime) (T := string) {| NUM_WORKERS := Some 8%Z |}
          "data" "data/food" "train_tf" "test_tf" 32 None machine_with_food_file
        = (s', inl FileNotFoundError)
      ∧ fs s' = fs machine_with_food_file
      ∧ calls s' = calls machine_with_food_file
                   ++ [CImageFolder "data"; CRaised FileNotFoundError].
Proof.
  apply (create_dataloaders_no_classes (H := toy_runtime) _ _ _ _ _ _ _ _ ["home"; "data"]).
  - by vm_compute.
  - by vm_compute.
  - intros n Hn. apply elem_of_scandir_dirs in Hn.
    assert (scandir_dirs (fs machine_with_food_file) ["home"; "data"] = []) as Hs
      by (by vm_compute).
    rewrite Hs in Hn. by apply elem_of_nil in Hn.
Defined.

(** ** create_model_baseline_vit *)

Section ModelMore.
Context `{Torch} `{Utils}.

Lemma filter_frozen (l : list Param) :
  Forall (λ p, requires_grad p = false) l → List.filter requires_grad l = [].
Proof.
  induction 1 as [|p l Hp _ IH]; [done|]. simpl. by rewrite Hp.
Qed.

Lemma Forall_parameters_children (P : Param → Prop) (c : list (string * nn_Module)) :
  Forall (λ nc, Forall P (parameters nc.2)) c →
  Forall P (flat_map (λ nc, parameters nc.2) c).
Proof.
  induction 1 as [|nc c Hnc _ IH]; simpl; [done|]. by apply Forall_app.
Qed.

Lemma Forall_set_child (P : Param → Prop) name new (c : list (string * nn_Module)) :
  Forall P (parameters new) →
  Forall (λ nc, Forall P (parameters nc.2)) c →
  Forall (λ nc, Forall P (parameters nc.2)) (set_child name new c).
Proof.
  intros Hnew. induction 1 as [|[n m] c Hnc Hc IH]; simpl.
  - by repeat constructor.
  - case_decide; by constructor.
Qed.

Lemma trainable_set_child name new (c : list (string * nn_Module)) :
  Forall (λ nc, Forall (λ p, requires_grad p = false) (parameters nc.2)) c →
  List.filter requires_grad (flat_map (λ nc, parameters nc.2) (set_child name new c))
  = List.filter requires_grad (parameters new).
Proof.
  induction 1 as [|[n m] c Hnc Hc IH]; simpl.
  - by rewrite app_nil_r.
  - case_decide; simpl; rewrite List.filter_app.
    + rewrite (filter_frozen (flat_map _ c)); [by rewrite app_nil_r|].
      by apply Forall_parameters_children.
    + by rewrite (filter_frozen (parameters m)), IH.
Qed.

Lemma frozen_children (m : nn_Module) :
  Forall (λ nc, Forall (λ p, requires_grad p = false) (parameters nc.2))
    (children (map_parameters (set_requires_grad false) m)).
Proof.
  destruct m as [o c]. simpl. apply Forall_fmap, Forall_forall. intros [n m] _.
  apply frozen_parameters.
Qed.

(** X9. What is left to train in the model [create_model_baseline_vit]
    returns is the head and nothing else: the parameters with
    requires_grad True are exactly the weight and the bias of the new
    linear layer, in this order, of shapes (out_feats, 768) and
    (out_feats), whatever the pretrained model holds. *)
Theorem create_model_baseline_vit_trainable (out_feats : Z) (device : option device)
    (s s' : torch) (m : nn_Module) :
  create_model_baseline_vit out_feats device s = (s', inr m) →
  trainable m = parameters (seeded_head out_feats device)
  ∧ map shape (trainable m) = [[out_feats; 768%Z]; [out_feats]]
  ∧ Forall (λ p, on p = default cpu device) (trainable m).
Proof.
  intros (m0 & _ & -> & _ & _ & _)%create_model_baseline_vit_inv.
  assert (trainable (setattr (map_parameters (set_requires_grad false) (moved device m0))
                       "heads" (seeded_head out_feats device))
          = parameters (seeded_head out_feats device)) as ->.
  { unfold trainable, setattr. cbn [parameters]. rewrite List.filter_app.
    rewrite trainable_set_child by apply frozen_children.
    rewrite filter_frozen.
    - unfold seeded_head.
      by destruct (reset_parameters (manual_seed seed) 768 out_feats) as [[w b] g].
    - destruct (moved device m0) as [o c]. simpl. rewrite map_map. simpl.
      apply Forall_fmap, Forall_forall. by intros [n p] _. }
  unfold seeded_head.
  destruct (reset_parameters (manual_seed seed) 768 out_feats) as [[w b] g]. simpl.
  split_and!; [done..|]. by repeat constructor.
Qed.

Lemma values_kept (d : option device) (c : nn_Module) :
  map (λ p, (shape p, value p))
    (parameters (map_parameters (set_requires_grad false) (moved d c)))
  = map (λ p, (shape p, value p)) (parameters c).
Proof.
  rewrite parameters_map_parameters, map_map. destruct d as [d|]; simpl; [|done].
  by rewrite parameters_map_parameters, map_map.
Qed.

Lemma fst_map_children {A B} (f : B → B) (c : list (A * B)) :
  (map (λ nc, (nc.1, f nc.2)) c).*1 = c.*1.
Proof. induction c as [|[n m] c IH]; [done|]. cbn. by f_equal. Qed.

(** X10. The rest of the returned model is the pretrained model as it
    was loaded: freezing and moving change no value and no shape of any
    parameter, the model's own parameters keep their names, the submodules
    keep their names and their order, the head taking the place of the
    pretrained head (or the last place when there was none), and every
    other submodule holds the values it was loaded with. *)
Theorem create_model_baseline_vit_backbone (out_feats : Z) (device : option device)
    (s s' : torch) (m : nn_Module) :
  create_model_baseline_vit out_feats device s = (s', inr m) →
  ∃ m0, hub s = inr m0
        ∧ map (λ np, (np.1, shape np.2, value np.2)) (own m)
          = map (λ np, (np.1, shape np.2, value np.2)) (own m0)
        ∧ (children m).*1
          = (if decide ("heads" ∈ (children m0).*1) then (children m0).*1
             else (children m0).*1 ++ ["heads"])
        ∧ ∀ n c, (n, c) ∈ children m → n ≠ "heads" →
            ∃ c0, (n, c0) ∈ children m0
                  ∧ map (λ p, (shape p, value p)) (parameters c)
                    = map (λ p, (shape p, value p)) (parameters c0).
Proof.
  intros (m0 & Hh & -> & _ & _ & _)%create_model_baseline_vit_inv.
  exists m0. split; [done|]. destruct m0 as [o c]. split_and!.
  - destruct device as [d|]; simpl; rewrite !map_map; simpl; done.
  - simpl. rewrite set_child_names.
    assert ((children (map_parameters (set_requires_grad false)
                         (moved device (Module_ o c)))).*1 = c.*1) as Hn.
    { destruct device as [d|]; simpl; by rewrite !fst_map_children. }
    by rewrite Hn.
  - intros n c1 Hin Hne. simpl in Hin. apply elem_of_set_child in Hin; [|done].
    assert (∃ c0, (n, c0) ∈ c
                  ∧ c1 = map_parameters (set_requires_grad false) (moved device c0))
      as (c0 & Hc0 & ->).
    { destruct device as [d|]; simpl in Hin.
      - apply list_elem_of_In, in_map_iff in Hin as ([n1 c2] & [= -> <-] & Hin). simpl.
        apply in_map_iff in Hin as ([n0 c0] & [= -> <-] & Hin%list_elem_of_In).
        by exists c0.
      - apply list_elem_of_In, in_map_iff in Hin as ([n0 c0] & [= -> <-] & Hin%list_elem_of_In).
        by exists c0. }
    exists c0. split; [done|]. apply values_kept.
Qed.

Lemma moved_on (d : device) (m : nn_Module) :
  Forall (λ p, on p = d) (parameters (moved (Some d) m)).
Proof. simpl. rewrite parameters_map_parameters. by apply Forall_fmap, Forall_true. Qed.

(** X11. With a device given, the whole returned model is on it: every
    parameter, of the pretrained part and of the new head alike. *)
Theorem create_model_baseline_vit_on_device (out_feats : Z) (d : device)
    (s s' : torch) (m : nn_Module) :
  create_model_baseline_vit out_feats (Some d) s = (s', inr m) →
  Forall (λ p, on p = d) (parameters m) ∧ available s d = true.
Proof.
  intros (m0 & _ & -> & _ & Ha & _)%create_model_baseline_vit_inv.
  split; [|by apply Ha].
  assert (∀ c, Forall (λ p, on p = d)
                 (parameters (map_parameters (set_requires_grad false) (moved (Some d) c))))
    as Hon.
  { intros c. rewrite parameters_map_parameters. apply Forall_fmap.
    eapply Forall_impl; [apply moved_on|]. by intros p. }
  unfold setattr. cbn [parameters]. apply Forall_app. split.
  - pose proof (Hon m0) as Hm0. destruct m0 as [o c]. simpl in *.
    by apply Forall_app in Hm0 as [? _].
  - apply Forall_parameters_children, Forall_set_child.
    + unfold seeded_head.
      destruct (reset_parameters (manual_seed seed) 768 out_feats) as [[w b] g]. simpl.
      by repeat constructor.
    + destruct m0 as [o c]. simpl. rewrite map_map. simpl.
      apply Forall_forall. intros [n c1] Hin.
      apply list_elem_of_In, in_map_iff in Hin as ([n0 c0] & [= -> <-] & _).
      apply (Hon c0).
Qed.

Lemma create_model_baseline_vit_rng out_feats device s s' m :
  create_model_baseline_vit out_feats device s = (s', inr m) →
  rng s' = (reset_parameters (manual_seed seed) 768 out_feats).2.
Proof.
  unfold create_model_baseline_vit. intros E.
  apply bind_inv_inr in E as (s2 & m1 & _ & E').
  apply bind_inv_inr in E' as (s3 & [] & Es & E').
  apply set_seeds_spec in Es as (_ & Hrng & _).
  apply bind_inv_inr in E' as (s5 & hd & E' & Er).
  apply bind_inv_inr in E' as (s4 & l & El & Et').
  apply nn_Linear_spec in El as (_ & _ & _ & _ & _ & R4 & _).
  apply to_spec in Et' as (R5 & _).
  injection Er as <- _. by rewrite R5, R4, Hrng.
Qed.

(** X12. The call leaves the global random generator in one fixed state,
    the one after the head was drawn from the fixed seed (utils.set_seeds
    is taken to put the generator in the state of its seed), whatever
    state it was in and whatever the device: what the process draws next
    is the same after every successful call with the same out_feats, so a
    traversal of a shuffling loader started right after it yields the same
    order in every run. *)
Theorem create_model_baseline_vit_reseeds (out_feats : Z) (device1 device2 : option device)
    (s1 s1' s2 s2' : torch) (m1 m2 : nn_Module) :
  create_model_baseline_vit out_feats device1 s1 = (s1', inr m1) →
  create_model_baseline_vit out_feats device2 s2 = (s2', inr m2) →
  rng s1' = (reset_parameters (manual_seed seed) 768 out_feats).2
  ∧ rng s2' = rng s1'
  ∧ ∀ T (dl : DataLoader T), traverse dl (rng s2') = traverse dl (rng s1').
Proof.
  intros R1%create_model_baseline_vit_rng R2%create_model_baseline_vit_rng.
  split_and!; [done | congruence |]. intros T dl. by rewrite R1, R2.
Qed.


End ModelMore.

Lemma create_model_baseline_vit_trainable_witness :
  let run := create_model_baseline_vit (H := toy_torch) (H0 := toy_utils) 3 (Some cpu)
               toy_process in
  ∃ m, run = (run.1, inr m)
  ∧ trainable m = parameters (seeded_head (H := toy_torch) (H0 := toy_utils) 3 (Some cpu))
  ∧ map shape (trainable m) = [[3%Z; 768%Z]; [3%Z]]
  ∧ Forall (λ p, on p = cpu) (trainable m).
Proof.
  intros run.
  assert (∃ m, run.2 = inr m) as (m & H2) by (vm_compute; by eexists).
  pose proof (run_eq _ _ _ H2) as Hrun. exists m. split; [exact Hrun|].
  exact (create_model_baseline_vit_trainable (H := toy_torch) (H0 := toy_utils) 3 (Some cpu)
           toy_process run.1 m Hrun).
Defined.

Lemma create_model_baseline_vit_backbone_witness :
  let run := create_model_baseline_vit (H := toy_torch) (H0 := toy_utils) 3 (Some cpu)
               toy_process in
  ∃ m, run = (run.1, inr m)
  ∧ ∃ m0, hub toy_process = inr m0
        ∧ map (λ np, (np.1, shape np.2, value np.2)) (own m)
          = map (λ np, (np.1, shape np.2, value np.2)) (own m0)
        ∧ (children m).*1
          = (if decide ("heads" ∈ (children m0).*1) then (children m0).*1
             else (children m0).*1 ++ ["heads"])
        ∧ ∀ n c, (n, c) ∈ children m → n ≠ "heads" →
            ∃ c0, (n, c0) ∈ children m0
                  ∧ map (λ p, (shape p, value p)) (parameters c)
                    = map (λ p, (shape p, value p)) (parameters c0).
Proof.
  intros run.
  assert (∃ m, run.2 = inr m) as (m & H2) by (vm_compute; by eexists).
  pose proof (run_eq _ _ _ H2) as Hrun. exists m. split; [exact Hrun|].
  exact (create_model_baseline_vit_backbone (H := toy_torch) (H0 := toy_utils) 3 (Some cpu)
           toy_process run.1 m Hrun).
Defined.

Lemma create_model_baseline_vit_on_device_witness :
  let run := create_model_baseline_vit (H := toy_torch) (H0 := toy_utils) 3 (Some (cuda 0))
               toy_process_with_gpu in
  Forall (λ p, on p = cpu) (parameters toy_vit)
  ∧ ∃ m, run = (run.1, inr m)
  ∧ Forall (λ p, on p = cuda 0) (parameters m)
  ∧ available toy_process_with_gpu (cuda 0) = true.
Proof.
  intros run. split; [by repeat constructor|].
  assert (∃ m, run.2 = inr m) as (m & H2) by (vm_compute; by eexists).
  pose proof (run_eq _ _ _ H2) as Hrun. exists m. split; [exact Hrun|].
  exact (create_model_baseline_vit_on_device (H := toy_torch) (H0 := toy_utils) 3 (cuda 0)
           toy_process_with_gpu run.1 m Hrun).
Defined.

Lemma create_model_baseline_vit_reseeds_witness :
  let other := {| rng := (1000%Z : generator (Torch := toy_torch)); hub := inr toy_vit;
                  available := λ _, true; tcalls := [] |} in
  let run1 := create_model_baseline_vit (H := toy_torch) (H0 := toy_utils) 3 None
                toy_process in
  let run2 := create_model_baseline_vit (H := toy_torch) (H0 := toy_utils) 3 (Some mps)
                other in
  ∃ m1 m2, run1 = (run1.1, inr m1) ∧ run2 = (run2.1, inr m2)
  ∧ rng run1.1 = (reset_parameters (Torch := toy_torch) (manual_seed 42) 768 3).2
  ∧ rng run2.1 = rng run1.1
  ∧ ∀ T (dl : DataLoader T), traverse dl (rng run2.1) = traverse dl (rng run1.1).
Proof.
  intros other run1 run2.
  assert (∃ m, run1.2 = inr m) as (m1 & H1) by (vm_compute; by eexists).
  assert (∃ m, run2.2 = inr m) as (m2 & H2) by (vm_compute; by eexists).
  pose proof (run_eq _ _ _ H1) as Hrun1. pose proof (run_eq _ _ _ H2) as Hrun2.
  exists m1, m2. split; [exact Hrun1|]. split; [exact Hrun2|].
  exact (create_model_baseline_vit_reseeds (H := toy_torch) (H0 := toy_utils) 3 None
           (Some mps) toy_process run1.1 other run2.1 m1 m2 Hrun1 Hrun2).
Defined.

